(** * poutr: location normalisation, navigation surfaces and the history engine

    A shallow embedding of [src/history.ts] (and of the navigation surface
    of [test/_utils.ts], the only externally supplied surface the repository
    contains) together with the properties stated about them.

    Conventions of the embedding.

    - A JavaScript string is modelled by its UTF-8 encoding, a [string] of
      bytes.  This is exact for well-formed strings: the URL parser works on
      the UTF-8 bytes of every non-ASCII code point, and a substring search
      on UTF-8 finds the same occurrences as one on code points.
    - Code that can raise returns a [completion]: [Normal v] or [Throw e].
      Mutations made before a [Throw] stay, as in JavaScript.
    - The closure variables of [createHistory] and the navigation surface
      form a [World]; engine methods are state transformers on it.
    - A listener is known by its identity only.  Calling one appends the
      change it receives to the world's list of deliveries; listener bodies
      are not modelled (they are taken not to navigate or raise).
    - The delta of [go] is an integer.  The code takes any number and does
      not round it; what it does with a delta that is not an integer is not
      modelled, and every property about [go] is about integer deltas.
    - Every [Location] object carries the reference it was allocated at, so
      that [===] on locations is equality of records.
    - The platform's [URL] class and [decodeURIComponent] are not part of
      the repository; they are modelled in [Module URL] and [Module URI]
      from the WHATWG URL Standard and from ECMA-262.  Hosts that need
      IDNA, IPv4 or IPv6 processing and the [file:] scheme are reported as
      [OutOfModel], never guessed. *)

From Stdlib Require Import String Ascii List ZArith NArith Lia Bool.
Import ListNotations.

Local Open Scope string_scope.
Local Open Scope bool_scope.

(** ** Completions *)

Inductive exn : Type :=
| TypeError (message : string)
| URIError (message : string)
| Error (message : string)
| OutOfModel (what : string).

Inductive completion (A : Type) : Type :=
| Normal (a : A)
| Throw (e : exn).

Arguments Normal {A} a.
Arguments Throw {A} e.

Definition cbind {A B : Type} (c : completion A) (k : A -> completion B) : completion B :=
  match c with
  | Normal a => k a
  | Throw e => Throw e
  end.

Notation "x <- c ;; k" := (cbind c (fun x => k))
  (at level 61, c at next level, right associativity).

(** ** Characters and strings *)

Module Str.

Definition code (c : ascii) : N := N_of_ascii c.

Definition between (lo hi : N) (c : ascii) : bool :=
  (lo <=? code c)%N && (code c <=? hi)%N.

Definition one_of (codes : list N) (c : ascii) : bool :=
  existsb (N.eqb (code c)) codes.

Definition is_upper : ascii -> bool := between 65 90.
Definition is_lower : ascii -> bool := between 97 122.
Definition is_alpha (c : ascii) : bool := is_upper c || is_lower c.
Definition is_digit : ascii -> bool := between 48 57.
Definition is_alnum (c : ascii) : bool := is_alpha c || is_digit c.
Definition is_hex (c : ascii) : bool :=
  is_digit c || between 65 70 c || between 97 102 c.

Definition to_lower (c : ascii) : ascii :=
  if is_upper c then ascii_of_N (code c + 32) else c.

Fixpoint lower (s : string) : string :=
  match s with
  | "" => ""
  | String c r => String (to_lower c) (lower r)
  end.

Fixpoint forallb (p : ascii -> bool) (s : string) : bool :=
  match s with
  | "" => true
  | String c r => p c && forallb p r
  end.

Fixpoint existsb (p : ascii -> bool) (s : string) : bool :=
  match s with
  | "" => false
  | String c r => p c || existsb p r
  end.

Fixpoint filter (p : ascii -> bool) (s : string) : string :=
  match s with
  | "" => ""
  | String c r => if p c then String c (filter p r) else filter p r
  end.

(** [includes s c]: [s.includes(c)] for a one-character needle. *)
Definition includes (s : string) (c : ascii) : bool := existsb (Ascii.eqb c) s.

Fixpoint starts_with (p s : string) : bool :=
  match p, s with
  | "", _ => true
  | String a p', String b s' => Ascii.eqb a b && starts_with p' s'
  | _, "" => false
  end.

Fixpoint drop (n : nat) (s : string) : string :=
  match n, s with
  | O, _ => s
  | S n', String _ r => drop n' r
  | S _, "" => ""
  end.

(** [break p s]: the longest prefix with no character in [p], and what
    follows the first character in [p], when there is one. *)
Fixpoint break (p : ascii -> bool) (s : string) : string * option string :=
  match s with
  | "" => ("", None)
  | String c r =>
      if p c then ("", Some r)
      else let '(a, b) := break p r in (String c a, b)
  end.

(** [span p s]: the longest prefix with no character in [p], and the rest,
    which starts with the first character in [p]. *)
Fixpoint span (p : ascii -> bool) (s : string) : string * string :=
  match s with
  | "" => ("", "")
  | String c r =>
      if p c then ("", s)
      else let '(a, b) := span p r in (String c a, b)
  end.

(** [break_last p s]: split at the last character in [p]. *)
Fixpoint break_last (p : ascii -> bool) (s : string) : option (string * string) :=
  match s with
  | "" => None
  | String c r =>
      match break_last p r with
      | Some (a, b) => Some (String c a, b)
      | None => if p c then Some ("", r) else None
      end
  end.

(** [split c s]: strictly split on [c]. *)
Fixpoint split (c : ascii) (s : string) : list string :=
  match s with
  | "" => [""]
  | String d r =>
      if Ascii.eqb d c then "" :: split c r
      else match split c r with
           | x :: l => String d x :: l
           | [] => [String d ""]
           end
  end.

(** [s.replace(pattern, replacement)] with a string pattern: the first
    occurrence only. *)
Fixpoint replace_first (pat rep s : string) : string :=
  if starts_with pat s then rep ++ drop (String.length pat) s
  else match s with
       | "" => ""
       | String c r => String c (replace_first pat rep r)
       end.

Definition hex_digit (n : N) : ascii :=
  if (n <? 10)%N then ascii_of_N (48 + n) else ascii_of_N (55 + n).

Definition hex_value (c : ascii) : N :=
  if is_digit c then code c - 48
  else if between 65 70 c then code c - 55
  else code c - 87.

Fixpoint decimal (acc : N) (s : string) : N :=
  match s with
  | "" => acc
  | String c r => decimal (10 * acc + (code c - 48)) r
  end.

End Str.

(** ** The platform's URL class

    Modelled from the WHATWG URL Standard (the class is the JavaScript
    platform's, not the repository's).  The functions are named after the
    states of the standard's basic URL parser; a state that moves its
    pointer back is written as a call on the same remaining input.  On
    two points implementations of different dates differ; here [^] belongs
    to the path percent-encode set and a space in an opaque path is kept.
    No property below depends on either. *)

Module URL.

Import Str.

(** Percent-encode sets, on bytes.  Every byte of a non-ASCII code point is
    above 0x7E and so belongs to each set. *)
Definition C0_control_set (c : ascii) : bool :=
  (code c <=? 31)%N || (126 <? code c)%N.
(* space, double quote, <, >, backquote *)
Definition fragment_set (c : ascii) : bool :=
  C0_control_set c || one_of [32; 34; 60; 62; 96]%N c.
(* space, double quote, #, <, > *)
Definition query_set (c : ascii) : bool :=
  C0_control_set c || one_of [32; 34; 35; 60; 62]%N c.
(* and the single quote *)
Definition special_query_set (c : ascii) : bool :=
  query_set c || one_of [39]%N c.
(* and ?, ^, backquote, {, } *)
Definition path_set (c : ascii) : bool :=
  query_set c || one_of [63; 94; 96; 123; 125]%N c.
(* and /, :, ;, =, @, [, \, ], | *)
Definition userinfo_set (c : ascii) : bool :=
  path_set c || one_of [47; 58; 59; 61; 64; 91; 92; 93; 124]%N c.

Definition percent_encode_byte (c : ascii) : string :=
  String "%" (String (hex_digit (code c / 16)) (String (hex_digit (code c mod 16)) "")).

Definition encode_char (set : ascii -> bool) (c : ascii) : string :=
  if set c then percent_encode_byte c else String c "".

(** UTF-8 percent-encode a string using a percent-encode set. *)
Fixpoint percent_encode (set : ascii -> bool) (s : string) : string :=
  match s with
  | "" => ""
  | String c r => encode_char set c ++ percent_encode set r
  end.

Inductive url_path : Type :=
| OpaquePath (p : string)
| Segments (l : list string).

Record url : Type := {
  scheme : string;
  username : string;
  password : string;
  host : option string;
  port : option N;
  path : url_path;
  query : option string;
  fragment : option string
}.

Definition is_special (scheme : string) : bool :=
  List.existsb (String.eqb scheme) ["ftp"; "file"; "http"; "https"; "ws"; "wss"].

Definition default_port (scheme : string) : option N :=
  if String.eqb scheme "ftp" then Some 21%N
  else if String.eqb scheme "http" || String.eqb scheme "ws" then Some 80%N
  else if String.eqb scheme "https" || String.eqb scheme "wss" then Some 443%N
  else None.

Definition has_opaque_path (u : url) : bool :=
  match path u with OpaquePath _ => true | Segments _ => false end.

Definition failure {A : Type} : completion A := Throw (TypeError "Invalid URL").

(** *** Preprocessing *)

Definition is_C0_or_space (c : ascii) : bool := (code c <=? 32)%N.
Definition is_tab_or_newline : ascii -> bool := one_of [9; 10; 13]%N.

Fixpoint drop_leading (s : string) : string :=
  match s with
  | "" => ""
  | String c r => if is_C0_or_space c then drop_leading r else s
  end.

Fixpoint drop_trailing (s : string) : string :=
  match s with
  | "" => ""
  | String c r =>
      match drop_trailing r with
      | "" => if is_C0_or_space c then "" else String c ""
      | r' => String c r'
      end
  end.

Definition preprocess (input : string) : string :=
  filter (fun c => negb (is_tab_or_newline c)) (drop_trailing (drop_leading input)).

(** *** Fragment, query and path *)

Definition fragment_state (s : string) : string := percent_encode fragment_set s.

Definition query_state (special : bool) (s : string) : string * option string :=
  let '(q, rest) := break (Ascii.eqb "#") s in
  (percent_encode (if special then special_query_set else query_set) q,
   option_map fragment_state rest).

Definition is_single_dot (buffer : string) : bool :=
  let b := lower buffer in String.eqb b "." || String.eqb b "%2e".

Definition is_double_dot (buffer : string) : bool :=
  let b := lower buffer in
  String.eqb b ".." || String.eqb b ".%2e" || String.eqb b "%2e." || String.eqb b "%2e%2e".

(** Shorten a path (the scheme is never [file] here). *)
Definition shorten (p : list string) : list string := removelast p.

(** What the path state does with its buffer when it meets the end of the
    input, a separator, [?] or [#]; [at_slash] tells whether it met a
    separator. *)
Definition flush (p : list string) (buffer : string) (at_slash : bool) : list string :=
  if is_double_dot buffer then
    if at_slash then shorten p else (shorten p ++ [""])%list
  else if is_single_dot buffer then
    if at_slash then p else (p ++ [""])%list
  else (p ++ [buffer])%list.

Definition is_separator (special : bool) (c : ascii) : bool :=
  Ascii.eqb c "/" || (special && Ascii.eqb c "\").

Fixpoint path_state (special : bool) (p : list string) (buffer : string) (s : string)
  : list string * option string * option string :=
  match s with
  | "" => (flush p buffer false, None, None)
  | String c r =>
      if is_separator special c then path_state special (flush p buffer true) "" r
      else if Ascii.eqb c "?" then
        let '(q, f) := query_state special r in (flush p buffer false, Some q, f)
      else if Ascii.eqb c "#" then (flush p buffer false, None, Some (fragment_state r))
      else path_state special p (buffer ++ encode_char path_set c) r
  end.

Definition path_start_state (special : bool) (s : string)
  : list string * option string * option string :=
  match s with
  | "" => if special then path_state special [] "" "" else ([], None, None)
  | String c r =>
      if special then
        if is_separator true c then path_state true [] "" r else path_state true [] "" s
      else if Ascii.eqb c "?" then
        let '(q, f) := query_state false r in ([], Some q, f)
      else if Ascii.eqb c "#" then ([], None, Some (fragment_state r))
      else if Ascii.eqb c "/" then path_state false [] "" r
      else path_state false [] "" s
  end.

(** The opaque path state. *)
Definition opaque_path_state (s : string) : string * option string * option string :=
  let '(p, rest) := span (fun c => Ascii.eqb c "?" || Ascii.eqb c "#") s in
  match rest with
  | String "?" r => let '(q, f) := query_state false r in (percent_encode C0_control_set p, Some q, f)
  | String _ r => (percent_encode C0_control_set p, None, Some (fragment_state r))
  | "" => (percent_encode C0_control_set p, None, None)
  end.

(** *** Hosts *)

(* NUL, tab, LF, CR, space, #, /, :, <, >, ?, @, [, \, ], ^, | *)
Definition forbidden_host : ascii -> bool :=
  one_of [0; 9; 10; 13; 32; 35; 47; 58; 60; 62; 63; 64; 91; 92; 93; 94; 124]%N.
(* and the C0 controls, % and DEL *)
Definition forbidden_domain (c : ascii) : bool :=
  forbidden_host c || (code c <=? 31)%N || one_of [37; 127]%N c.

(** Whether a domain ends in a number, so that the IPv4 parser takes over. *)
Definition ends_in_a_number (domain : string) : bool :=
  let parts := rev (split "." domain) in
  let parts := match parts with
               | "" :: ((_ :: _) as l) => l
               | _ => parts
               end in
  match parts with
  | [] | [""] => false
  | last :: _ =>
      if String.eqb last "" then false
      else Str.forallb is_digit last
           || (starts_with "0x" (lower last) && Str.forallb is_hex (drop 2 last))
  end.

Definition host_parser (is_opaque : bool) (input : string) : completion string :=
  if starts_with "[" input then Throw (OutOfModel "IPv6 address")
  else if is_opaque then
    if Str.existsb forbidden_host input then failure
    else Normal (percent_encode C0_control_set input)
  else if Str.existsb (fun c => Ascii.eqb c "%" || (127 <? code c)%N) input
  then Throw (OutOfModel "percent-encoded or non-ASCII domain")
  else
    let domain := lower input in
    if List.existsb (starts_with "xn--") (split "." domain)
    then Throw (OutOfModel "punycode label")
    else if String.eqb domain "" then failure
    else if Str.existsb forbidden_domain domain then failure
    else if ends_in_a_number domain then Throw (OutOfModel "IPv4 address")
    else Normal domain.

(** *** Authority *)

Definition is_authority_end (special : bool) (c : ascii) : bool :=
  Ascii.eqb c "/" || Ascii.eqb c "?" || Ascii.eqb c "#" || (special && Ascii.eqb c "\").

(** The host state's scan for a [:] outside brackets. *)
Fixpoint host_split (inside_brackets : bool) (s : string) : string * option string :=
  match s with
  | "" => ("", None)
  | String c r =>
      if Ascii.eqb c ":" && negb inside_brackets then ("", Some r)
      else
        let inside := if Ascii.eqb c "[" then true
                      else if Ascii.eqb c "]" then false else inside_brackets in
        let '(a, b) := host_split inside r in (String c a, b)
  end.

Definition port_state (scheme : string) (digits : string) : completion (option N) :=
  if negb (Str.forallb is_digit digits) then failure
  else if String.eqb digits "" then Normal None
  else
    let p := decimal 0 digits in
    if (65535 <? p)%N then failure
    else Normal (if match default_port scheme with
                    | Some d => N.eqb d p
                    | None => false
                    end then None else Some p).

Definition credentials (userinfo : string) : string * string :=
  let '(u, p) := break (Ascii.eqb ":") userinfo in
  (percent_encode userinfo_set u,
   match p with Some p => percent_encode userinfo_set p | None => "" end).

(** The authority, host and port states, followed by the path start
    state. *)
Definition authority_state (scheme : string) (s : string) : completion url :=
  let special := is_special scheme in
  let '(authority, rest) := span (is_authority_end special) s in
  creds <- match break_last (Ascii.eqb "@") authority with
           | Some (userinfo, hostport) =>
               if String.eqb hostport "" then failure
               else Normal (credentials userinfo, hostport)
           | None => Normal (("", ""), authority)
           end ;;
  let '((user, pass), hostport) := creds in
  let '(buffer, port_part) := host_split false hostport in
  hp <- match port_part with
        | Some digits =>
            if String.eqb buffer "" then failure
            else h <- host_parser (negb special) buffer ;;
                 p <- port_state scheme digits ;;
                 Normal (h, p)
        | None =>
            if special && String.eqb buffer "" then failure
            else h <- host_parser (negb special) buffer ;;
                 Normal (h, None)
        end ;;
  let '(p, q, f) := path_start_state special rest in
  Normal {| scheme := scheme; username := user; password := pass;
            host := Some (fst hp); port := snd hp;
            path := Segments p; query := q; fragment := f |}.

Fixpoint skip_slashes (s : string) : string :=
  match s with
  | String c r => if is_separator true c then skip_slashes r else s
  | "" => ""
  end.

Definition special_authority_ignore_slashes_state (scheme : string) (s : string)
  : completion url :=
  authority_state scheme (skip_slashes s).

Definition special_authority_slashes_state (scheme : string) (s : string) : completion url :=
  if starts_with "//" s then special_authority_ignore_slashes_state scheme (drop 2 s)
  else special_authority_ignore_slashes_state scheme s.

Definition path_or_authority_state (scheme : string) (s : string) : completion url :=
  match s with
  | String "/" r => authority_state scheme r
  | _ =>
      let '(p, q, f) := path_state false [] "" s in
      Normal {| scheme := scheme; username := ""; password := ""; host := None; port := None;
                path := Segments p; query := q; fragment := f |}
  end.

(** *** Relative references *)

Definition with_base_authority (base : url) (r : list string * option string * option string)
  : url :=
  let '(p, q, f) := r in
  {| scheme := scheme base; username := username base; password := password base;
     host := host base; port := port base; path := Segments p; query := q; fragment := f |}.

Definition relative_slash_state (base : url) (s : string) : completion url :=
  let special := is_special (scheme base) in
  match s with
  | String c r =>
      if special && is_separator true c
      then special_authority_ignore_slashes_state (scheme base) r
      else if Ascii.eqb c "/" then authority_state (scheme base) r
      else Normal (with_base_authority base (path_state special [] "" s))
  | "" => Normal (with_base_authority base (path_state special [] "" ""))
  end.

Definition base_segments (base : url) : list string :=
  match path base with Segments l => l | OpaquePath _ => [] end.

Definition relative_state (base : url) (s : string) : completion url :=
  let special := is_special (scheme base) in
  match s with
  | "" => Normal (with_base_authority base (base_segments base, query base, None))
  | String c r =>
      if is_separator special c then relative_slash_state base r
      else if Ascii.eqb c "?" then
        let '(q, f) := query_state special r in
        Normal (with_base_authority base (base_segments base, Some q, f))
      else if Ascii.eqb c "#" then
        Normal (with_base_authority base (base_segments base, query base, Some (fragment_state r)))
      else
        Normal (with_base_authority base (path_state special (shorten (base_segments base)) "" s))
  end.

Definition special_relative_or_authority_state (base : url) (s : string) : completion url :=
  if starts_with "//" s then special_authority_ignore_slashes_state (scheme base) (drop 2 s)
  else relative_state base s.

Definition no_scheme_state (base : option url) (s : string) : completion url :=
  match base with
  | None => failure
  | Some b =>
      match path b, s with
      | OpaquePath p, String "#" r =>
          Normal {| scheme := scheme b; username := username b; password := password b;
                    host := host b; port := port b; path := OpaquePath p; query := query b;
                    fragment := Some (fragment_state r) |}
      | OpaquePath _, _ => failure
      | Segments _, _ =>
          if String.eqb (scheme b) "file" then Throw (OutOfModel "file scheme")
          else relative_state b s
      end
  end.

(** *** Scheme *)

Definition is_scheme_char (c : ascii) : bool := is_alnum c || one_of [43; 45; 46]%N c.

(** The scheme state: the lower-cased scheme and what follows its colon. *)
Fixpoint scheme_state (s : string) : option (string * string) :=
  match s with
  | "" => None
  | String c r =>
      if Ascii.eqb c ":" then Some ("", r)
      else if is_scheme_char c then
        match scheme_state r with
        | Some (b, rest) => Some (String (to_lower c) b, rest)
        | None => None
        end
      else None
  end.

Definition scheme_start_state (s : string) : option (string * string) :=
  match s with
  | String c _ => if is_alpha c then scheme_state s else None
  | "" => None
  end.

(** The basic URL parser, without state override and with UTF-8 as the
    encoding. *)
Definition basic_url_parser (input : string) (base : option url) : completion url :=
  let input := preprocess input in
  match scheme_start_state input with
  | Some (sch, remaining) =>
      if String.eqb sch "file" then Throw (OutOfModel "file scheme")
      else if is_special sch then
        match base with
        | Some b =>
            if String.eqb (scheme b) sch then special_relative_or_authority_state b remaining
            else special_authority_slashes_state sch remaining
        | None => special_authority_slashes_state sch remaining
        end
      else
        match remaining with
        | String "/" r => path_or_authority_state sch r
        | _ =>
            let '(p, q, f) := opaque_path_state remaining in
            Normal {| scheme := sch; username := ""; password := ""; host := None;
                      port := None; path := OpaquePath p; query := q; fragment := f |}
        end
  | None => no_scheme_state base input
  end.

(** *** The API: constructor and getters *)

(** [new URL(input)] and [new URL(input, base)]. *)
Definition new (input : string) (base : option string) : completion url :=
  match base with
  | None => basic_url_parser input None
  | Some b =>
      parsed_base <- basic_url_parser b None ;;
      basic_url_parser input (Some parsed_base)
  end.

Fixpoint serialize_segments (l : list string) : string :=
  match l with
  | [] => ""
  | seg :: l' => String "/" seg ++ serialize_segments l'
  end.

Definition pathname (u : url) : string :=
  match path u with
  | OpaquePath p => p
  | Segments l => serialize_segments l
  end.

Definition search (u : url) : string :=
  match query u with
  | None | Some "" => ""
  | Some q => String "?" q
  end.

Definition hash (u : url) : string :=
  match fragment u with
  | None | Some "" => ""
  | Some f => String "#" f
  end.

Fixpoint decimal_digits (fuel : nat) (n : N) (acc : string) : string :=
  match fuel with
  | O => acc
  | S fuel' =>
      let acc' := String (ascii_of_N (48 + n mod 10)) acc in
      if (n <? 10)%N then acc' else decimal_digits fuel' (n / 10) acc'
  end.

(** The URL serializer. *)
Definition href (u : url) : string :=
  scheme u ++ ":" ++
  match host u with
  | Some h =>
      "//" ++
      (if String.eqb (username u) "" && String.eqb (password u) "" then ""
       else username u ++ (if String.eqb (password u) "" then "" else ":" ++ password u) ++ "@") ++
      h ++
      match port u with
      | Some p => ":" ++ decimal_digits 5 p ""
      | None => ""
      end
  | None =>
      match path u with
      | Segments ("" :: _ :: _) => "/."
      | _ => ""
      end
  end ++
  pathname u ++
  match query u with Some q => "?" ++ q | None => "" end ++
  match fragment u with Some f => "#" ++ f | None => "" end.

End URL.

(** ** The platform's [decodeURIComponent]

    Modelled from ECMA-262 (Decode with an empty set of reserved
    characters).  An escape is [%] and two hex digits; the escaped bytes
    must form well-formed UTF-8. *)

Module URI.

Import Str.

Inductive token : Type :=
| Lit (c : ascii)
| Esc (byte : N).

Definition malformed {A : Type} : completion A := Throw (URIError "URI malformed").

Fixpoint tokens (s : string) : completion (list token) :=
  match s with
  | "" => Normal []
  | String c r =>
      if Ascii.eqb c "%" then
        match r with
        | String h (String l r') =>
            if is_hex h && is_hex l then
              ts <- tokens r' ;; Normal (Esc (16 * hex_value h + hex_value l) :: ts)
            else malformed
        | _ => malformed
        end
      else ts <- tokens r ;; Normal (Lit c :: ts)
  end.

Definition continuation (lo hi : N) (t : token) : option ascii :=
  match t with
  | Esc b => if (lo <=? b)%N && (b <=? hi)%N then Some (ascii_of_N b) else None
  | Lit _ => None
  end.

(** The bounds of the first continuation byte after a lead byte, and the
    number of continuation bytes; [None] for a byte that cannot lead. *)
Definition lead (b : N) : option (N * N * nat) :=
  if (b <? 194)%N then None
  else if (b <=? 223)%N then Some (128%N, 191%N, 1%nat)
  else if (b =? 224)%N then Some (160%N, 191%N, 2%nat)
  else if (b =? 237)%N then Some (128%N, 159%N, 2%nat)
  else if (b <=? 239)%N then Some (128%N, 191%N, 2%nat)
  else if (b =? 240)%N then Some (144%N, 191%N, 3%nat)
  else if (b <=? 243)%N then Some (128%N, 191%N, 3%nat)
  else if (b =? 244)%N then Some (128%N, 143%N, 3%nat)
  else None.

Fixpoint sequences (ts : list token) : completion string :=
  match ts with
  | [] => Normal ""
  | Lit c :: r => s <- sequences r ;; Normal (String c s)
  | Esc b :: r =>
      if (b <? 128)%N then s <- sequences r ;; Normal (String (ascii_of_N b) s)
      else
        match lead b, r with
        | Some (lo, hi, 1%nat), t1 :: r' =>
            match continuation lo hi t1 with
            | Some c1 => s <- sequences r' ;; Normal (String (ascii_of_N b) (String c1 s))
            | None => malformed
            end
        | Some (lo, hi, 2%nat), t1 :: t2 :: r' =>
            match continuation lo hi t1, continuation 128 191 t2 with
            | Some c1, Some c2 =>
                s <- sequences r' ;;
                Normal (String (ascii_of_N b) (String c1 (String c2 s)))
            | _, _ => malformed
            end
        | Some (lo, hi, 3%nat), t1 :: t2 :: t3 :: r' =>
            match continuation lo hi t1, continuation 128 191 t2, continuation 128 191 t3 with
            | Some c1, Some c2, Some c3 =>
                s <- sequences r' ;;
                Normal (String (ascii_of_N b) (String c1 (String c2 (String c3 s))))
            | _, _, _ => malformed
            end
        | _, _ => malformed
        end
  end.

Definition decodeURIComponent (s : string) : completion string :=
  ts <- tokens s ;; sequences ts.

End URI.

(** ** JavaScript values held as history state *)

#[warnings="-register-all"]
Inductive JSVal : Type :=
| JUndefined
| JNull
| JBool (b : bool)
| JNum (n : Z)
| JStr (s : string)
| JObj (fields : list (string * JSVal)).

Definition truthy (v : JSVal) : bool :=
  match v with
  | JUndefined | JNull => false
  | JBool b => b
  | JNum n => negb (Z.eqb n 0)
  | JStr s => negb (String.eqb s "")
  | JObj _ => true
  end.

Fixpoint lookup_field (name : string) (fields : list (string * JSVal)) : JSVal :=
  match fields with
  | [] => JUndefined
  | (k, v) :: r => if String.eqb k name then v else lookup_field name r
  end.

(** [v?.name]: [undefined] on [undefined] and [null]; a primitive has no
    own property of the names used here. *)
Definition get (v : JSVal) (name : string) : JSVal :=
  match v with
  | JObj fields => lookup_field name fields
  | _ => JUndefined
  end.

(** ** Locations *)

Record Location : Type := {
  ref : nat;
  href : string;
  path : string;
  search : string;
  hash : string;
  state : JSVal
}.

Inductive Action : Type := POP | PUSH | REPLACE.

(** The argument a listener is called with. *)
Module Change.
Record t : Type := {
  action : Action;
  location : Location;
  from : option Location
}.
End Change.

(** [s.replace(/\/+/g, '/')]: every run of slashes becomes one slash. *)
Fixpoint collapse_slashes (s : string) : string :=
  match s with
  | "" => ""
  | String c r =>
      if Ascii.eqb c "/" then
        match r with
        | String "/" _ => collapse_slashes r
        | _ => String c (collapse_slashes r)
        end
      else String c (collapse_slashes r)
  end.

(** What [.] matches in a regular expression without flags: anything but a
    line terminator (LF and CR among bytes; a pathname is ASCII, the URL
    parser having escaped everything else). *)
Definition regexp_dot (c : ascii) : bool := negb (Str.one_of [10; 13]%N c).

(** Whether [/\/+$/] matches the whole of [s]. *)
Definition slashes_to_end (s : string) : bool :=
  negb (String.eqb s "") && Str.forallb (Ascii.eqb "/") s.

(** [s.replace(/.\/+$/, '')]: the leftmost match is removed, and it starts
    at the character BEFORE the trailing run of slashes. *)
Fixpoint strip_trailing_slash (s : string) : string :=
  match s with
  | "" => ""
  | String c r =>
      if regexp_dot c && slashes_to_end r then ""
      else String c (strip_trailing_slash r)
  end.

Definition normalize (pathname : string) : string :=
  strip_trailing_slash (collapse_slashes (String "/" pathname)).

(** [createLocation(href, state)]; [r] is the reference of the object it
    returns.  The [searchParams] view is a function of [search] and is left
    out. *)
Definition createLocation (r : nat) (href : string) (state : JSVal) : completion Location :=
  url <- URL.new (if Str.includes href ":" then href else "pr:" ++ href) None ;;
  let path := normalize (URL.pathname url) in
  Normal {| ref := r; href := path ++ URL.search url ++ URL.hash url; path := path;
            search := URL.search url; hash := URL.hash url; state := state |}.

(** ** JavaScript containers *)

(** A [Set]: insertion-ordered, without duplicates. *)
Section JSSet.
Context {A : Type} (eqb : A -> A -> bool).

Definition set_has (x : A) (s : list A) : bool := existsb (eqb x) s.
Definition set_add (x : A) (s : list A) : list A :=
  if set_has x s then s else s ++ [x].
Definition set_delete (x : A) (s : list A) : list A :=
  filter (fun y => negb (eqb x y)) s.
End JSSet.

(** An array that can have holes: [a[i]] is [undefined] on a hole and past
    the end, and [a[i] = x] past the end extends the array. *)
Section JSArray.
Context {A : Type}.

Definition array_get (a : list (option A)) (i : nat) : option A :=
  match nth_error a i with
  | Some (Some x) => Some x
  | _ => None
  end.

Definition array_last (a : list (option A)) : option A :=
  array_get a (length a - 1).

Fixpoint array_set (a : list (option A)) (i : nat) (x : A) : list (option A) :=
  match a, i with
  | [], O => [Some x]
  | [], S i' => None :: array_set [] i' x
  | _ :: r, O => Some x :: r
  | y :: r, S i' => y :: array_set r i' x
  end.

(** [a.splice(start, Infinity, x)] *)
Definition array_splice_to_end (a : list (option A)) (start : nat) (x : A)
  : list (option A) :=
  firstn start a ++ [Some x].
End JSArray.

(** ** Navigation surfaces *)

(** Functions registered on a surface for [popstate]: the engine's
    [handlePop], or somebody else's. *)
Inductive Callback : Type :=
| HandlePop
| Foreign (id : nat).

Definition Callback_eqb (a b : Callback) : bool :=
  match a, b with
  | HandlePop, HandlePop => true
  | Foreign i, Foreign j => Nat.eqb i j
  | _, _ => false
  end.

Definition undefined_read {A : Type} : completion A :=
  Throw (TypeError "Cannot read properties of undefined").

(** [Math.max(0, Math.min(length - 1, index + delta))].  The delta is
    modelled as an integer, the kind [back] and [forward] pass and the kind
    the interface means by a number of entries; the cursor is then a natural
    number.  The code does not round: a delta that is not an integer can
    leave a cursor that is no index, which is outside this model. *)
Definition clamp (length index : nat) (delta : Z) : nat :=
  Z.to_nat (Z.max 0 (Z.min (Z.of_nat length - 1) (Z.of_nat index + delta))).

(** The interface [WindowSubset].  A method that mutates the surface
    returns the surface it leaves; [go] also returns the callbacks it
    calls, in order, for the world to run them. *)
Class WindowSubset (W : Type) : Type := {
  location_href : W -> completion string;
  location_hash : W -> completion string;
  addEventListener : string -> Callback -> W -> W;
  removeEventListener : string -> Callback -> W -> W;
  history_length : W -> nat;
  history_state : W -> JSVal;
  pushState : JSVal -> option string -> W -> W * completion unit;
  replaceState : JSVal -> option string -> W -> W * completion unit;
  history_go : option Z -> W -> W * list Callback
}.

(** [location || fallback] on an optional string. *)
Definition or_else (location : option string) (fallback : completion string)
  : completion string :=
  match location with
  | Some l => if String.eqb l "" then fallback else Normal l
  | None => fallback
  end.

(** *** [createMockedWindow] of [src/history.ts] *)

Module MockedWindow.

Record t : Type := {
  index : nat;
  history : list (option (string * JSVal));
  listeners : list Callback
}.

Definition createMockedWindow (initial : string) : t :=
  {| index := 0; history := [Some (initial, JUndefined)]; listeners := [] |}.

(** The [location] getter builds [{href: history[index]![0], hash: '#'}]. *)
Definition location (w : t) : completion (string * string) :=
  match array_get (history w) (index w) with
  | Some (href, _) => Normal (href, "#")
  | None => undefined_read
  end.

Definition state (w : t) : JSVal :=
  match array_get (history w) (index w) with
  | Some (_, st) => st
  | None => JUndefined
  end.

Definition last_location (w : t) : completion string :=
  match array_last (history w) with
  | Some (href, _) => Normal href
  | None => undefined_read
  end.

(** [history.splice(++index, Infinity, [location || history[history.length - 1]![0], state])]:
    the index is incremented before the entry is built. *)
Definition pushState (st : JSVal) (location : option string) (w : t) : t * completion unit :=
  let w1 := {| index := S (index w); history := history w; listeners := listeners w |} in
  match or_else location (last_location w1) with
  | Throw e => (w1, Throw e)
  | Normal l =>
      ({| index := index w1;
          history := array_splice_to_end (history w1) (index w1) (l, st);
          listeners := listeners w1 |}, Normal tt)
  end.

Definition replaceState (st : JSVal) (location : option string) (w : t) : t * completion unit :=
  match or_else location (last_location w) with
  | Throw e => (w, Throw e)
  | Normal l =>
      ({| index := index w; history := array_set (history w) (index w) (l, st);
          listeners := listeners w |}, Normal tt)
  end.

Definition go (delta : option Z) (w : t) : t * list Callback :=
  match delta with
  | None => (w, [])
  | Some d =>
      let currentIndex := index w in
      let w' := {| index := clamp (length (history w)) (index w) d;
                   history := history w; listeners := listeners w |} in
      if Nat.eqb (index w') currentIndex then (w', []) else (w', listeners w')
  end.

Definition addEventListener (name : string) (callback : Callback) (w : t) : t :=
  if String.eqb name "popstate"
  then {| index := index w; history := history w;
          listeners := set_add Callback_eqb callback (listeners w) |}
  else w.

Definition removeEventListener (name : string) (callback : Callback) (w : t) : t :=
  if String.eqb name "popstate"
  then {| index := index w; history := history w;
          listeners := set_delete Callback_eqb callback (listeners w) |}
  else w.

End MockedWindow.

#[export] Instance MockedWindow_WindowSubset : WindowSubset MockedWindow.t := {|
  location_href w := p <- MockedWindow.location w ;; Normal (fst p);
  location_hash w := p <- MockedWindow.location w ;; Normal (snd p);
  addEventListener := MockedWindow.addEventListener;
  removeEventListener := MockedWindow.removeEventListener;
  history_length w := length (MockedWindow.history w);
  history_state := MockedWindow.state;
  pushState := MockedWindow.pushState;
  replaceState := MockedWindow.replaceState;
  history_go := MockedWindow.go
|}.

(** *** [createWindowSubset] of [test/_utils.ts]

    The surface the repository's tests hand to the three factories: its
    entries hold [URL] objects, resolved against the last entry. *)

Module TestWindow.

Record t : Type := {
  index : nat;
  history : list (option (URL.url * JSVal));
  listeners : list Callback
}.

Definition createWindowSubset (initial : string) : completion t :=
  u <- URL.new initial (Some "https://example.com") ;;
  Normal {| index := 0; history := [Some (u, JUndefined)]; listeners := [] |}.

Definition current (w : t) : completion URL.url :=
  match array_get (history w) (index w) with
  | Some (u, _) => Normal u
  | None => undefined_read
  end.

Definition href (w : t) : completion string := u <- current w ;; Normal (URL.href u).
Definition pathname (w : t) : completion string := u <- current w ;; Normal (URL.pathname u).
Definition hash (w : t) : completion string := u <- current w ;; Normal (URL.hash u).

Definition state (w : t) : JSVal :=
  match array_get (history w) (index w) with
  | Some (_, st) => st
  | None => JUndefined
  end.

Definition prevLocation (w : t) : completion URL.url :=
  match array_last (history w) with
  | Some (u, _) => Normal u
  | None => undefined_read
  end.

(** [location ? new URL(location, prevLocation.href) : prevLocation] *)
Definition target (location : option string) (prev : URL.url) : completion URL.url :=
  match location with
  | Some l => if String.eqb l "" then Normal prev else URL.new l (Some (URL.href prev))
  | None => Normal prev
  end.

(** [++index] is evaluated before the entry is built, so it stays when
    [new URL] raises. *)
Definition pushState (st : JSVal) (location : option string) (w : t) : t * completion unit :=
  match prevLocation w with
  | Throw e => (w, Throw e)
  | Normal prev =>
      let w1 := {| index := S (index w); history := history w; listeners := listeners w |} in
      match target location prev with
      | Throw e => (w1, Throw e)
      | Normal u =>
          ({| index := index w1;
              history := array_splice_to_end (history w1) (index w1) (u, st);
              listeners := listeners w1 |}, Normal tt)
      end
  end.

Definition replaceState (st : JSVal) (location : option string) (w : t) : t * completion unit :=
  match prevLocation w with
  | Throw e => (w, Throw e)
  | Normal prev =>
      match target location prev with
      | Throw e => (w, Throw e)
      | Normal u =>
          ({| index := index w; history := array_set (history w) (index w) (u, st);
              listeners := listeners w |}, Normal tt)
      end
  end.

Definition go (delta : option Z) (w : t) : t * list Callback :=
  match delta with
  | None => (w, [])
  | Some d =>
      let currentIndex := index w in
      let w' := {| index := clamp (length (history w)) (index w) d;
                   history := history w; listeners := listeners w |} in
      if Nat.eqb (index w') currentIndex then (w', []) else (w', listeners w')
  end.

Definition addEventListener (name : string) (callback : Callback) (w : t) : t :=
  if String.eqb name "popstate"
  then {| index := index w; history := history w;
          listeners := set_add Callback_eqb callback (listeners w) |}
  else w.

Definition removeEventListener (name : string) (callback : Callback) (w : t) : t :=
  if String.eqb name "popstate"
  then {| index := index w; history := history w;
          listeners := set_delete Callback_eqb callback (listeners w) |}
  else w.

End TestWindow.

#[export] Instance TestWindow_WindowSubset : WindowSubset TestWindow.t := {|
  location_href := TestWindow.href;
  location_hash := TestWindow.hash;
  addEventListener := TestWindow.addEventListener;
  removeEventListener := TestWindow.removeEventListener;
  history_length w := length (TestWindow.history w);
  history_state := TestWindow.state;
  pushState := TestWindow.pushState;
  replaceState := TestWindow.replaceState;
  history_go := TestWindow.go
|}.

(** ** The history engine *)

Definition Listener : Type := nat.

Record HistoryDriver (W : Type) : Type := {
  getLocation : W -> nat -> completion Location;
  prepareUrl : string -> Location -> completion (option string);
  prepareState : JSVal -> string -> Location -> completion JSVal
}.

Arguments getLocation {W} _ _ _.
Arguments prepareUrl {W} _ _ _.
Arguments prepareState {W} _ _ _ _.

(** The surface, the closure variables of [createHistory], the calls made
    to listeners so far (oldest first) and the next free reference. *)
Record World (W : Type) : Type := {
  window : W;
  location : Location;
  from : option Location;
  listeners : list Listener;
  deliveries : list (Listener * Change.t);
  next_ref : nat
}.

Arguments window {W} _.
Arguments location {W} _.
Arguments from {W} _.
Arguments listeners {W} _.
Arguments deliveries {W} _.
Arguments next_ref {W} _.

Module History.

Section Engine.
Context {W : Type} `{WindowSubset W} (driver : HistoryDriver W).

Definition set_window (win : W) (w : World W) : World W :=
  {| window := win; location := location w; from := from w; listeners := listeners w;
     deliveries := deliveries w; next_ref := next_ref w |}.

Definition set_listeners (ls : list Listener) (w : World W) : World W :=
  {| window := window w; location := location w; from := from w; listeners := ls;
     deliveries := deliveries w; next_ref := next_ref w |}.

(** [listeners.forEach((listener) => listener({action, location, from}))] *)
Definition notify (a : Action) (w : World W) : World W :=
  let change := {| Change.action := a; Change.location := location w;
                   Change.from := from w |} in
  {| window := window w; location := location w; from := from w;
     listeners := listeners w;
     deliveries := deliveries w ++ map (fun l => (l, change)) (listeners w);
     next_ref := next_ref w |}.

(** [from = location] is done before [getLocation] can raise. *)
Definition triggerChange (a : Action) (w : World W) : World W * completion unit :=
  let w1 := {| window := window w; location := location w; from := Some (location w);
               listeners := listeners w; deliveries := deliveries w;
               next_ref := next_ref w |} in
  match getLocation driver (window w1) (next_ref w1) with
  | Throw e => (w1, Throw e)
  | Normal l =>
      (notify a {| window := window w1; location := l; from := from w1;
                   listeners := listeners w1; deliveries := deliveries w1;
                   next_ref := S (next_ref w1) |}, Normal tt)
  end.

Definition handlePop : World W -> World W * completion unit := triggerChange POP.

(** The surface calling its [popstate] callbacks; one that raises ends
    the [forEach]. *)
Fixpoint dispatch (callbacks : list Callback) (w : World W) : World W * completion unit :=
  match callbacks with
  | [] => (w, Normal tt)
  | HandlePop :: r =>
      match handlePop w with
      | (w', Normal _) => dispatch r w'
      | (w', Throw e) => (w', Throw e)
      end
  | Foreign _ :: r => dispatch r w
  end.

Definition length (w : World W) : nat := history_length (window w).

Definition push (to : string) (st : JSVal) (w : World W) : World W * completion unit :=
  match prepareState driver st to (location w) with
  | Throw e => (w, Throw e)
  | Normal prepared =>
      match prepareUrl driver to (location w) with
      | Throw e => (w, Throw e)
      | Normal url =>
          match pushState prepared url (window w) with
          | (win, Throw e) => (set_window win w, Throw e)
          | (win, Normal _) => triggerChange PUSH (set_window win w)
          end
      end
  end.

Definition replace (to : string) (st : JSVal) (w : World W) : World W * completion unit :=
  match prepareState driver st to (location w) with
  | Throw e => (w, Throw e)
  | Normal prepared =>
      match prepareUrl driver to (location w) with
      | Throw e => (w, Throw e)
      | Normal url =>
          match replaceState prepared url (window w) with
          | (win, Throw e) => (set_window win w, Throw e)
          | (win, Normal _) => triggerChange REPLACE (set_window win w)
          end
      end
  end.

Definition go (delta : option Z) (w : World W) : World W * completion unit :=
  let '(win, callbacks) := history_go delta (window w) in
  dispatch callbacks (set_window win w).

Definition back : World W -> World W * completion unit := go (Some (-1)%Z).
Definition forward : World W -> World W * completion unit := go (Some 1%Z).

Definition subscribe (listener : Listener) (w : World W) : World W :=
  set_listeners (set_add Nat.eqb listener (listeners w)) w.

Definition unsubscribe (listener : Listener) (w : World W) : World W :=
  set_listeners (set_delete Nat.eqb listener (listeners w)) w.

(** The disposer [subscribe] returns. *)
Definition disposer (listener : Listener) : World W -> World W := unsubscribe listener.

Definition destroy (w : World W) : World W :=
  set_listeners [] (set_window (removeEventListener "popstate" HandlePop (window w)) w).

(** [createHistory(window, driver)]; the first location gets reference
    [0]. *)
Definition createHistory (win : W) : completion (World W) :=
  l <- getLocation driver win 0 ;;
  Normal {| window := addEventListener "popstate" HandlePop win; location := l;
            from := None; listeners := []; deliveries := []; next_ref := 1 |}.

(** Code outside the engine driving the surface directly. *)
Definition window_pushState (st : JSVal) (url : option string) (w : World W)
  : World W * completion unit :=
  let '(win, c) := pushState st url (window w) in (set_window win w, c).

Definition window_replaceState (st : JSVal) (url : option string) (w : World W)
  : World W * completion unit :=
  let '(win, c) := replaceState st url (window w) in (set_window win w, c).

Definition window_go : option Z -> World W -> World W * completion unit := go.

End Engine.

End History.

(** ** The three drivers *)

Section Drivers.
Context {W : Type} `{WindowSubset W}.

Definition browserDriver : HistoryDriver W := {|
  getLocation window r :=
    h <- location_href window ;; createLocation r h (history_state window);
  prepareUrl to _ := Normal (Some to);
  prepareState st _ _ := Normal st
|}.

Definition createBrowserHistory (window : W) : completion (World W) :=
  History.createHistory browserDriver window.

(** [hash.slice(1)] *)
Definition slice1 (s : string) : string := Str.drop 1 s.

Definition hashDriver (hashSubstitute : string) : HistoryDriver W := {|
  getLocation window r :=
    h <- location_hash window ;;
    decoded <- URI.decodeURIComponent (slice1 h) ;;
    createLocation r (Str.replace_first hashSubstitute "#" decoded) (history_state window);
  prepareUrl to current :=
    url <- URL.new to (Some ("http://h.com" ++ href current)) ;;
    let hash := if (1 <? String.length (URL.hash url))%nat
                then hashSubstitute ++ slice1 (URL.hash url) else "" in
    Normal (Some ("#" ++ URL.pathname url ++ URL.search url ++ hash));
  prepareState st _ _ := Normal st
|}.

(** The default substitute, U+FF03 FULLWIDTH NUMBER SIGN. *)
Definition default_hashSubstitute : string := "＃".

Definition createHashHistory (hashSubstitute : string) (window : W) : completion (World W) :=
  History.createHistory (hashDriver hashSubstitute) window.

Definition IS_MEMORY_HISTORY_STATE : string := "IS_MEMORY_HISTORY_STATE".

(** [prepareState] of [createMemoryHistory]; [current] is [current?.href]. *)
Definition memory_prepareState (st : JSVal) (to : string) (current : option string)
  : completion JSVal :=
  url <- URL.new to (Some ("https://m.com" ++
                           match current with Some h => h | None => "" end)) ;;
  Normal (JObj [(IS_MEMORY_HISTORY_STATE, JBool true);
                ("state", st);
                ("href", JStr (URL.pathname url ++ URL.search url ++ URL.hash url))]).

Definition out_of_memory_history : exn := Error "navigation out of memory history".

Definition memoryDriver : HistoryDriver W := {|
  getLocation window r :=
    let winState := history_state window in
    if negb (truthy (get winState IS_MEMORY_HISTORY_STATE)) then Throw out_of_memory_history
    else
      match get winState "href" with
      | JStr h => createLocation r h (get winState "state")
      | JUndefined =>
          Throw (TypeError "Cannot read properties of undefined (reading 'includes')")
      | JNull => Throw (TypeError "Cannot read properties of null (reading 'includes')")
      | _ => Throw (TypeError "href.includes is not a function")
      end;
  prepareUrl _ _ := Normal None;
  prepareState st to current := memory_prepareState st to (Some (href current))
|}.

(** [createMemoryHistory({initial, window})] with a window given. *)
Definition createMemoryHistory (initial : string) (window : W) : completion (World W) :=
  prepared <- memory_prepareState JNull initial None ;;
  match replaceState prepared None window with
  | (_, Throw e) => Throw e
  | (win, Normal _) => History.createHistory memoryDriver win
  end.

End Drivers.

(** [createMemoryHistory({initial})] without a window: the engine runs on
    [createMockedWindow()]. *)
Definition createMemoryHistory_mocked (initial : string) : completion (World MockedWindow.t) :=
  createMemoryHistory initial (MockedWindow.createMockedWindow "/").

(** ** Sessions: calls made on an engine and on its surface *)

Inductive Op : Type :=
| OpPush (to : string) (st : JSVal)
| OpReplace (to : string) (st : JSVal)
| OpGo (delta : option Z)
| OpBack
| OpForward
| OpSubscribe (listener : Listener)
| OpUnsubscribe (listener : Listener)
| OpDestroy
| OpWindowPushState (st : JSVal) (url : option string)
| OpWindowReplaceState (st : JSVal) (url : option string)
| OpWindowGo (delta : option Z).

Section Sessions.
Context {W : Type} `{WindowSubset W} (driver : HistoryDriver W).

Definition run (op : Op) (w : World W) : World W * completion unit :=
  match op with
  | OpPush to st => History.push driver to st w
  | OpReplace to st => History.replace driver to st w
  | OpGo delta => History.go driver delta w
  | OpBack => History.back driver w
  | OpForward => History.forward driver w
  | OpSubscribe l => (History.subscribe l w, Normal tt)
  | OpUnsubscribe l => (History.unsubscribe l w, Normal tt)
  | OpDestroy => (History.destroy w, Normal tt)
  | OpWindowPushState st url => History.window_pushState st url w
  | OpWindowReplaceState st url => History.window_replaceState st url w
  | OpWindowGo delta => History.window_go driver delta w
  end.

(** A caller that goes on after a failure. *)
Fixpoint run_all (ops : list Op) (w : World W) : World W :=
  match ops with
  | [] => w
  | op :: r => run_all r (fst (run op w))
  end.

(** The calls a listener received. *)
Definition received (listener : Listener) (w : World W) : list Change.t :=
  map snd (filter (fun x : Listener * Change.t => Nat.eqb (fst x) listener) (deliveries w)).

End Sessions.

(** ** Vocabulary of the properties *)

(** The cursor of a simulated surface points at an entry. *)
Definition valid_cursor (w : MockedWindow.t) : Prop :=
  (MockedWindow.index w < List.length (MockedWindow.history w))%nat.

(** A simulated surface in good order: the cursor points at an entry and
    the array has no hole. *)
Definition well_formed (w : MockedWindow.t) : Prop :=
  valid_cursor w /\ Forall (fun e => e <> None) (MockedWindow.history w).

(** [history[i]?.[1]] on the entries of a surface. *)
Definition state_at {L : Type} (entries : list (option (L * JSVal))) (i : nat) : JSVal :=
  match array_get entries i with
  | Some (_, st) => st
  | None => JUndefined
  end.

(** A state that does not carry the marker of the memory driver. *)
Definition lacks_marker (st : JSVal) : Prop :=
  truthy (get st IS_MEMORY_HISTORY_STATE) = false.


Section Vocabulary.
Context {W : Type} `{WindowSubset W} (d : HistoryDriver W).

(** Pushes made one after the other, up to the first that raises. *)
Fixpoint push_all (targets : list (string * JSVal)) (w : World W)
  : World W * completion unit :=
  match targets with
  | [] => (w, Normal tt)
  | (to, st) :: r =>
      match History.push d to st w with
      | (w', Normal _) => push_all r w'
      | (w', Throw e) => (w', Throw e)
      end
  end.

(** The change [triggerChange a] hands to listeners when the world
    before it was [w] and the world it leaves is [w']. *)
Definition change_of (a : Action) (w w' : World W) : Change.t :=
  {| Change.action := a; Change.location := location w';
     Change.from := Some (location w) |}.

(** What a call added to the deliveries: calls of listeners that were
    subscribed, each with the location the engine holds after the call
    and the one it held before. *)
Definition delivered (a : Action) (w w' : World W) : Prop :=
  exists batch,
    deliveries w' = (deliveries w ++ batch)%list /\
    Forall (fun x => In (fst x) (listeners w) /\ snd x = change_of a w w') batch.

(** A delivery made while the surface runs its callbacks comes from one
    run of [handlePop]. *)
Definition popped (x : Listener * Change.t) : Prop :=
  exists w0 w1, History.handlePop d w0 = (w1, Normal tt) /\
                In (fst x) (listeners w1) /\ snd x = change_of POP w0 w1.

(** A call adds deliveries for listeners that were subscribed when it
    started, and for no one else. *)
Definition to_subscribers (w w' : World W) : Prop :=
  exists batch, deliveries w' = (deliveries w ++ batch)%list /\
                Forall (fun x => In (fst x) (listeners w)) batch.

(** A driver that derives the location from what the surface stores, not
    from the callbacks registered on it. *)
Definition reads_surface : Prop :=
  forall name callback win r,
    getLocation d (removeEventListener name callback win) r = getLocation d win r.

End Vocabulary.

(** A surface on which removing a callback changes nothing else: what it
    shows and what [pushState] and [replaceState] store are the same with
    and without the callback. *)
Class LawfulWindow (W : Type) `{WindowSubset W} : Prop := {
  remove_location_href : forall name callback win,
    location_href (removeEventListener name callback win) = location_href win;
  remove_location_hash : forall name callback win,
    location_hash (removeEventListener name callback win) = location_hash win;
  remove_history_state : forall name callback win,
    history_state (removeEventListener name callback win) = history_state win;
  remove_history_length : forall name callback win,
    history_length (removeEventListener name callback win) = history_length win;
  remove_pushState : forall name callback st url win,
    pushState st url (removeEventListener name callback win) =
    (removeEventListener name callback (fst (pushState st url win)),
     snd (pushState st url win));
  remove_replaceState : forall name callback st url win,
    replaceState st url (removeEventListener name callback win) =
    (removeEventListener name callback (fst (replaceState st url win)),
     snd (replaceState st url win))
}.

(** The state the memory driver stores for a caller's state and an href. *)
Definition envelope (st : JSVal) (h : string) : JSVal :=
  JObj [(IS_MEMORY_HISTORY_STATE, JBool true); ("state", st); ("href", JStr h)].

(** The same location behind another reference. *)
Definition with_ref (r : nat) (l : Location) : Location :=
  {| ref := r; href := href l; path := path l; search := search l; hash := hash l;
     state := state l |}.

(** A memory engine on the simulated surface, in step with it: the current
    entry is the one its location was derived from. *)
Definition in_step (w : World MockedWindow.t) : Prop :=
  well_formed (window w) /\
  NoDup (MockedWindow.listeners (window w)) /\
  In HandlePop (MockedWindow.listeners (window w)) /\
  getLocation memoryDriver (window w) (ref (location w)) = Normal (location w).

(** [push('/foo', st)] and then [back()] complete; the push leaves the
    engine at path [/foo], and [back()] calls every subscribed listener once
    with action POP, the engine's new location, of path [/], and the
    location of path [/foo] as [from]. *)
Definition pops_back {W : Type} `{WindowSubset W} (d : HistoryDriver W)
  (w : World W) (st : JSVal) : Prop :=
  exists w1 w2,
    History.push d "/foo" st w = (w1, Normal tt) /\
    History.back d w1 = (w2, Normal tt) /\
    path (location w1) = "/foo" /\
    path (location w2) = "/" /\
    deliveries w2 =
    (deliveries w1 ++
     map (fun l => (l, {| Change.action := POP; Change.location := location w2;
                         Change.from := Some (location w1) |})) (listeners w))%list.

(** Whether, on a hash engine configured with [hashSubstitute] and made on
    the test surface, pushing [/foo] and then [#bar] completes and leaves a
    location of path [/foo] and hash [#bar]. *)
Definition round_trips (hashSubstitute : string) (window : TestWindow.t) : bool :=
  match createHashHistory hashSubstitute window with
  | Normal w =>
      match History.push (hashDriver hashSubstitute) "/foo" JUndefined w with
      | (w1, Normal _) =>
          match History.push (hashDriver hashSubstitute) "#bar" JUndefined w1 with
          | (w2, Normal _) =>
              String.eqb (hash (location w2)) "#bar" && String.eqb (path (location w2)) "/foo"
          | (_, Throw _) => false
          end
      | (_, Throw _) => false
      end
  | Throw _ => false
  end.

(** The one-character ASCII substitutes that survive the trip: all but tab,
    LF and CR (the URL parser removes them), [%] (it starts an escape), and
    [/], [f] and [o] (they occur in [/foo] before the substitute). *)
Definition usable_substitute (c : ascii) : bool :=
  (Str.code c <? 128)%N && negb (Str.one_of [9; 10; 13; 37; 47; 102; 111]%N c).

(** A character the path state copies into a segment as it is. *)
Definition clean (c : ascii) : bool :=
  negb (URL.path_set c) && negb (Ascii.eqb c "/").

(** A segment as the path state leaves it in a path: made of copied
    characters and escapes, and neither a single-dot nor a double-dot
    segment. *)
Definition good_segment (seg : string) : bool :=
  Str.forallb clean seg && negb (URL.is_single_dot seg) && negb (URL.is_double_dot seg).

Abbreviation good := (fun seg => good_segment seg = true).

(** The segments of the normalised path before its last step: the empty
    segments go, but for one that ends the path. *)
Fixpoint compact (p : list string) : list string :=
  match p with
  | [] => [""]
  | seg :: r =>
      if String.eqb seg "" then compact r
      else seg :: match r with [] => [] | _ :: _ => compact r end
  end.

(** ** Surfaces of the test scenarios *)

(** A [URL] of the origin the test surface is seeded with. *)
Definition example_com (segments : list string) (fragment : option string) : URL.url :=
  {| URL.scheme := "https"; URL.username := ""; URL.password := "";
     URL.host := Some "example.com"; URL.port := None;
     URL.path := URL.Segments segments; URL.query := None; URL.fragment := fragment |}.

(** [createWindowSubset()] *)
Definition seeded_window : TestWindow.t :=
  {| TestWindow.index := 0;
     TestWindow.history := [Some (example_com [""] None, JUndefined)];
     TestWindow.listeners := [] |}.

(** [createWindowSubset()] after a foreign [pushState(null, '', '/foo')]. *)
Definition foreign_pushed_window : TestWindow.t :=
  {| TestWindow.index := 1;
     TestWindow.history := [Some (example_com [""] None, JUndefined);
                            Some (example_com ["foo"] None, JNull)];
     TestWindow.listeners := [] |}.

(** [createWindowSubset()] after a foreign [replaceState(null, '', '/foo')]. *)
Definition foreign_replaced_window : TestWindow.t :=
  {| TestWindow.index := 0;
     TestWindow.history := [Some (example_com ["foo"] None, JNull)];
     TestWindow.listeners := [] |}.

(** ** Vocabulary of the further properties *)

(** Whether a string holds two slashes in a row. *)
Fixpoint has_double_slash (s : string) : bool :=
  match s with
  | "" => false
  | String c r => (Ascii.eqb c "/" && Str.starts_with "/" r) || has_double_slash r
  end.

(** Whether a string starts with two hex digits, as an escape needs after
    its [%]. *)
Definition two_hex (s : string) : bool :=
  match s with
  | String h (String l _) => Str.is_hex h && Str.is_hex l
  | _ => false
  end.

(** The calls a session makes on the engine only: nobody else drives the
    surface with [pushState] or [replaceState]. *)
Definition engine_call (op : Op) : Prop :=
  match op with
  | OpWindowPushState _ _ | OpWindowReplaceState _ _ => False
  | _ => True
  end.

(** The calls that navigate or subscribe on a live engine. *)
Definition keeps_engine (op : Op) : Prop :=
  match op with
  | OpWindowPushState _ _ | OpWindowReplaceState _ _ | OpDestroy => False
  | _ => True
  end.

(** Every entry of a simulated surface shows the href [h]. *)
Definition uniform_href (h : string) (w : MockedWindow.t) : Prop :=
  Forall (fun e => exists st, e = Some (h, st)) (MockedWindow.history w).

(** One of the three drivers of the repository. *)
Definition a_driver {W : Type} `{WindowSubset W} (d : HistoryDriver W) : Prop :=
  d = browserDriver \/ (exists hashSubstitute, d = hashDriver hashSubstitute)
  \/ d = memoryDriver.

(** The simulated surface with its cursor on entry [i]. *)
Definition at_entry (i : nat) (w : MockedWindow.t) : MockedWindow.t :=
  {| MockedWindow.index := i; MockedWindow.history := MockedWindow.history w;
     MockedWindow.listeners := MockedWindow.listeners w |}.

(** Every entry of the surface holds a state the memory driver reads a
    location from. *)
Definition all_readable (w : MockedWindow.t) : Prop :=
  forall i, (i < List.length (MockedWindow.history w))%nat ->
    exists l, getLocation memoryDriver (at_entry i w) 0 = Normal l.

(** A memory engine in step with a simulated surface whose entries it can
    all read. *)
Definition self_driven (w : World MockedWindow.t) : Prop :=
  in_step w /\ all_readable (window w).


(** A navigation that fails before any listener is called: [prepareState],
    [prepareUrl], the write on the surface ([pushState] for [push],
    [replaceState] for [replace]) or [getLocation] on the written surface
    raises [e], and [w'] is the world that is left. *)
Definition fails_before_listeners {W : Type} `{WindowSubset W} (d : HistoryDriver W)
  (write : JSVal -> option string -> W -> W * completion unit)
  (to : string) (st : JSVal) (w w' : World W) (e : exn) : Prop :=
  (prepareState d st to (location w) = Throw e /\ w' = w) \/
  (exists p, prepareState d st to (location w) = Normal p /\
             prepareUrl d to (location w) = Throw e /\ w' = w) \/
  (exists p u win,
      prepareState d st to (location w) = Normal p /\
      prepareUrl d to (location w) = Normal u /\
      write p u (window w) = (win, Throw e) /\
      w' = History.set_window win w) \/
  (exists p u win,
      prepareState d st to (location w) = Normal p /\
      prepareUrl d to (location w) = Normal u /\
      write p u (window w) = (win, Normal tt) /\
      getLocation d win (next_ref w) = Throw e /\
      w' = {| window := win; location := location w; from := Some (location w);
              listeners := listeners w; deliveries := deliveries w;
              next_ref := next_ref w |}).

(** Evaluates a scenario stated with [pops_back]: the engine is made, then
    the two calls are run. *)
Ltac run_scenario :=
  eexists; split; [vm_compute; reflexivity|];
  split; [vm_compute; reflexivity|];
  do 2 eexists;
  split; [vm_compute; reflexivity|];
  split; [vm_compute; reflexivity|];
  split; [vm_compute; reflexivity|];
  split; vm_compute; reflexivity.

(** * Properties *)

Local Open Scope list_scope.

(** ** The surfaces of the scenarios *)

Lemma createWindowSubset_seeded :
  TestWindow.createWindowSubset "/" = Normal seeded_window.
Proof. vm_compute. reflexivity. Qed.

(** ** The simulated surface *)

Section SimulatedSurface.
Import MockedWindow.

Lemma clamp_below (len i : nat) (d : Z) :
  (0 < len)%nat -> (clamp len i d < len)%nat.
Proof. unfold clamp. lia. Qed.

Lemma clamp_inside (len i : nat) (d : Z) :
  (0 <= Z.of_nat i + d <= Z.of_nat len - 1)%Z ->
  Z.of_nat (clamp len i d) = (Z.of_nat i + d)%Z.
Proof. unfold clamp. lia. Qed.

Lemma clamp_low (len i : nat) (d : Z) :
  (Z.of_nat i + d < 0)%Z -> clamp len i d = 0%nat.
Proof. unfold clamp. lia. Qed.

Lemma clamp_high (len i : nat) (d : Z) :
  (Z.of_nat len - 1 < Z.of_nat i + d)%Z -> clamp len i d = (len - 1)%nat.
Proof. unfold clamp. lia. Qed.

Lemma go_valid (delta : option Z) (w : t) :
  valid_cursor w -> valid_cursor (fst (go delta w)).
Proof.
  unfold valid_cursor. destruct delta as [d|]; simpl; [|easy].
  intros Hv. destruct (Nat.eqb _ _); simpl; apply clamp_below; lia.
Qed.

Lemma firstn_splice_length {A : Type} (a : list (option A)) (start : nat) (x : A) :
  (start <= List.length a)%nat ->
  List.length (array_splice_to_end a start x) = S start.
Proof.
  intros Hs. unfold array_splice_to_end.
  rewrite length_app, length_firstn. simpl. lia.
Qed.

Lemma array_last_valid {A : Type} (a : list (option A)) :
  Forall (fun e => e <> None) a -> a <> [] -> exists x, array_last a = Some x.
Proof.
  intros Hall Hne. unfold array_last, array_get.
  destruct (nth_error a (List.length a - 1)) as [e|] eqn:E.
  - apply nth_error_In in E. rewrite Forall_forall in Hall.
    specialize (Hall _ E). destruct e; [eauto | congruence].
  - apply nth_error_None in E. destruct a; [congruence | simpl in E; lia].
Qed.

Lemma array_set_length {A : Type} (a : list (option A)) (i : nat) (x : A) :
  (i < List.length a)%nat -> List.length (array_set a i x) = List.length a.
Proof.
  revert i. induction a as [|y a IH]; intros [|i] Hi; simpl in *; try lia.
  rewrite IH; lia.
Qed.

(** On a valid cursor [pushState] keeps the entries up to the cursor,
    drops the ones after it, appends the new one and moves the cursor
    onto it. *)
Lemma pushState_truncates (st : JSVal) (url : option string) (w : t) :
  valid_cursor w ->
  forall w' c, pushState st url w = (w', c) ->
  index w' = S (index w) /\
  listeners w' = listeners w /\
  (c = Normal tt ->
   exists l, history w' = (firstn (S (index w)) (history w) ++ [Some (l, st)])%list /\
             List.length (history w') = S (S (index w))).
Proof.
  unfold valid_cursor, pushState. intros Hv w' c.
  destruct (or_else url _) as [l|e]; intros E; inversion E; subst; clear E; simpl.
  - repeat split. intros _. exists l. split; [reflexivity|].
    apply firstn_splice_length. lia.
  - repeat split. discriminate.
Qed.

End SimulatedSurface.

(** C4.  [go(delta)] on the simulated surface moves the cursor to
    [cursor + delta] clamped to [0 .. length - 1] and leaves the entries and
    the registered callbacks alone.  When the clamped target is the current
    cursor nothing changes and no callback is called; otherwise the cursor
    holds the clamped target and every registered callback is called, once.
    A [go()] without a delta does nothing. *)
Theorem go_by_delta_clamps (w : MockedWindow.t) (delta : Z) :
  let target := (Z.of_nat (MockedWindow.index w) + delta)%Z in
  let last := (List.length (MockedWindow.history w) - 1)%nat in
  let w' := fst (MockedWindow.go (Some delta) w) in
  let called := snd (MockedWindow.go (Some delta) w) in
  MockedWindow.index w' = clamp (List.length (MockedWindow.history w)) (MockedWindow.index w) delta /\
  ((target < 0)%Z -> MockedWindow.index w' = 0%nat) /\
  ((0 <= target <= Z.of_nat last)%Z -> Z.of_nat (MockedWindow.index w') = target) /\
  ((Z.of_nat last < target)%Z -> MockedWindow.index w' = last) /\
  MockedWindow.history w' = MockedWindow.history w /\
  MockedWindow.listeners w' = MockedWindow.listeners w /\
  (MockedWindow.index w' = MockedWindow.index w -> w' = w /\ called = []) /\
  (MockedWindow.index w' <> MockedWindow.index w -> called = MockedWindow.listeners w) /\
  MockedWindow.go None w = (w, []).
Proof.
  intros target last w' called. subst target last w' called.
  unfold MockedWindow.go. simpl.
  destruct (Nat.eqb _ _) eqn:E; simpl.
  - apply Nat.eqb_eq in E. repeat split; try reflexivity; intros; unfold clamp in *; try lia.
    + destruct w; simpl in *. f_equal. exact E.
  - apply Nat.eqb_neq in E. repeat split; try reflexivity; intros; unfold clamp in *; try lia.
Qed.

(** ** The engine, on any surface and with any driver *)

Section EngineFacts.
Context {W : Type} `{WindowSubset W} (d : HistoryDriver W).

Lemma triggerChange_normal (a : Action) (w w' : World W) :
  History.triggerChange d a w = (w', Normal tt) ->
  getLocation d (window w) (next_ref w) = Normal (location w') /\
  window w' = window w /\ listeners w' = listeners w /\
  from w' = Some (location w) /\ next_ref w' = S (next_ref w) /\
  deliveries w' = deliveries w ++ map (fun l => (l, change_of a w w')) (listeners w).
Proof.
  unfold History.triggerChange. simpl.
  destruct (getLocation d (window w) (next_ref w)) as [l|e]; intros E; inversion E; subst.
  simpl. repeat split; reflexivity.
Qed.

Lemma triggerChange_throw (a : Action) (w w' : World W) (e : exn) :
  History.triggerChange d a w = (w', Throw e) ->
  getLocation d (window w) (next_ref w) = Throw e /\
  window w' = window w /\ listeners w' = listeners w /\
  location w' = location w /\ from w' = Some (location w) /\
  next_ref w' = next_ref w /\ deliveries w' = deliveries w.
Proof.
  unfold History.triggerChange. simpl.
  destruct (getLocation d (window w) (next_ref w)) as [l|e']; intros E; inversion E; subst.
  simpl. repeat split; reflexivity.
Qed.

Lemma triggerChange_when_throw (a : Action) (w : World W) (e : exn) :
  getLocation d (window w) (next_ref w) = Throw e ->
  History.triggerChange d a w =
  ({| window := window w; location := location w; from := Some (location w);
      listeners := listeners w; deliveries := deliveries w; next_ref := next_ref w |},
   Throw e).
Proof. unfold History.triggerChange. simpl. intros ->. reflexivity. Qed.

(** Every call [triggerChange] makes passes the location the engine
    holds at that moment and the one it held before. *)
Lemma triggerChange_batch (a : Action) (w w' : World W) (c : completion unit) :
  History.triggerChange d a w = (w', c) ->
  exists batch,
    deliveries w' = deliveries w ++ batch /\
    Forall (fun x => In (fst x) (listeners w) /\ snd x = change_of a w w') batch /\
    (c = Normal tt -> map fst batch = listeners w).
Proof.
  destruct c as [[]|e]; intros E.
  - apply triggerChange_normal in E as (_ & _ & _ & _ & _ & ->).
    eexists. split; [reflexivity|]. split.
    + apply Forall_forall. intros [l ch] Hin. apply in_map_iff in Hin as (l' & E & Hl).
      inversion E; subst. simpl. auto.
    + intros _. rewrite map_map. simpl. apply map_id.
  - apply triggerChange_throw in E as (_ & _ & _ & _ & _ & _ & ->).
    exists []. rewrite app_nil_r. repeat split; [constructor | discriminate].
Qed.

Lemma dispatch_without_handler (callbacks : list Callback) (w : World W) :
  ~ In HandlePop callbacks -> History.dispatch d callbacks w = (w, Normal tt).
Proof.
  induction callbacks as [|[|i] r IH]; simpl; intros Hn; auto.
  exfalso. auto.
Qed.

Lemma dispatch_batches (callbacks : list Callback) (w w' : World W) (c : completion unit) :
  History.dispatch d callbacks w = (w', c) ->
  exists batch, deliveries w' = deliveries w ++ batch /\ Forall (popped d) batch.
Proof.
  revert w. induction callbacks as [|[|i] r IH]; simpl; intros w E.
  - inversion E; subst. exists []. rewrite app_nil_r. split; [reflexivity | constructor].
  - destruct (History.handlePop d w) as [w1 [[]|e]] eqn:E1.
    + destruct (IH _ E) as (b2 & E2 & F2).
      pose proof E1 as E1'. apply triggerChange_normal in E1' as (_ & _ & Hl & _ & _ & Hd).
      exists (map (fun l => (l, change_of POP w w1)) (listeners w) ++ b2).
      split; [rewrite E2, Hd, app_assoc; reflexivity|].
      apply Forall_app. split; [|exact F2].
      apply Forall_forall. intros x Hin. apply in_map_iff in Hin as (l & <- & Hin).
      exists w, w1. simpl. rewrite Hl. auto.
    + inversion E; subst.
      apply triggerChange_throw in E1 as (_ & _ & _ & _ & _ & _ & ->).
      exists []. rewrite app_nil_r. split; [reflexivity | constructor].
  - eauto.
Qed.

(** When the surface calls [handlePop] at most once, the deliveries are
    those of one change from the world before to the world after. *)
Lemma dispatch_once (callbacks : list Callback) (w w' : World W) (c : completion unit) :
  NoDup callbacks ->
  History.dispatch d callbacks w = (w', c) ->
  exists batch, deliveries w' = deliveries w ++ batch /\
    Forall (fun x => In (fst x) (listeners w) /\ snd x = change_of POP w w') batch.
Proof.
  revert w. induction callbacks as [|[|i] r IH]; simpl; intros w Hnd E.
  - inversion E; subst. exists []. rewrite app_nil_r. split; [reflexivity | constructor].
  - inversion Hnd as [|? ? Hni Hnd']; subst.
    destruct (History.handlePop d w) as [w1 [[]|e]] eqn:E1.
    + rewrite (dispatch_without_handler r w1 Hni) in E. inversion E; subst.
      destruct (triggerChange_batch _ _ _ _ E1) as (b & Hb & F & _). eauto.
    + inversion E; subst.
      destruct (triggerChange_batch _ _ _ _ E1) as (b & Hb & F & _). eauto.
  - inversion Hnd; subst. eauto.
Qed.

Lemma set_window_fields (win : W) (w : World W) :
  location (History.set_window win w) = location w /\
  from (History.set_window win w) = from w /\
  listeners (History.set_window win w) = listeners w /\
  deliveries (History.set_window win w) = deliveries w /\
  next_ref (History.set_window win w) = next_ref w /\
  window (History.set_window win w) = win.
Proof. repeat split. Qed.

(** [push] and [replace] either stop before the change, with nothing
    delivered, or end in [triggerChange] on the mutated surface. *)
Lemma push_cases (to : string) (st : JSVal) (w w' : World W) (c : completion unit) :
  History.push d to st w = (w', c) ->
  (exists e, c = Throw e /\ deliveries w' = deliveries w /\ location w' = location w /\
             from w' = from w /\ listeners w' = listeners w) \/
  (exists prepared url win,
      prepareState d st to (location w) = Normal prepared /\
      prepareUrl d to (location w) = Normal url /\
      pushState prepared url (window w) = (win, Normal tt) /\
      History.triggerChange d PUSH (History.set_window win w) = (w', c)).
Proof.
  unfold History.push.
  destruct (prepareState d st to (location w)) as [prepared|e];
    [|intros E; inversion E; subst; left; eauto 6].
  destruct (prepareUrl d to (location w)) as [url|e];
    [|intros E; inversion E; subst; left; eauto 6].
  destruct (pushState prepared url (window w)) as [win [[]|e]] eqn:Ep;
    [|intros E; inversion E; subst; left; exists e; repeat split].
  intros E. right. exists prepared, url, win. auto.
Qed.

Lemma replace_cases (to : string) (st : JSVal) (w w' : World W) (c : completion unit) :
  History.replace d to st w = (w', c) ->
  (exists e, c = Throw e /\ deliveries w' = deliveries w /\ location w' = location w /\
             from w' = from w /\ listeners w' = listeners w) \/
  (exists prepared url win,
      prepareState d st to (location w) = Normal prepared /\
      prepareUrl d to (location w) = Normal url /\
      replaceState prepared url (window w) = (win, Normal tt) /\
      History.triggerChange d REPLACE (History.set_window win w) = (w', c)).
Proof.
  unfold History.replace.
  destruct (prepareState d st to (location w)) as [prepared|e];
    [|intros E; inversion E; subst; left; eauto 6].
  destruct (prepareUrl d to (location w)) as [url|e];
    [|intros E; inversion E; subst; left; eauto 6].
  destruct (replaceState prepared url (window w)) as [win [[]|e]] eqn:Ep;
    [|intros E; inversion E; subst; left; exists e; repeat split].
  intros E. right. exists prepared, url, win. auto.
Qed.

End EngineFacts.

(** C3.  Every call of a listener, for PUSH, REPLACE or POP, passes the
    location the engine holds at that moment as [location] and the location
    it held immediately before the change as [from].  For [go], [back] and
    [forward] this holds change by change, whatever the surface calls; when
    the surface calls each of its callbacks once (its callbacks are a set),
    the locations are those held after and before the call of [go]. *)
Theorem listeners_get_current_location
  {W : Type} `{WindowSubset W} (d : HistoryDriver W) (w w' : World W) (c : completion unit) :
  (forall to st, History.push d to st w = (w', c) -> delivered PUSH w w') /\
  (forall to st, History.replace d to st w = (w', c) -> delivered REPLACE w w') /\
  (History.handlePop d w = (w', c) -> delivered POP w w') /\
  (forall delta, History.go d delta w = (w', c) ->
     exists batch, deliveries w' = deliveries w ++ batch /\ Forall (popped d) batch) /\
  (forall delta, NoDup (snd (history_go delta (window w))) ->
     History.go d delta w = (w', c) -> delivered POP w w').
Proof.
  repeat split.
  - intros to st E. apply push_cases in E as [(e & _ & Hd & _)|(p & u & win & _ & _ & _ & E)].
    + exists []. rewrite app_nil_r. split; [exact Hd | constructor].
    + destruct (triggerChange_batch _ _ _ _ _ E) as (b & Hb & F & _). exists b. auto.
  - intros to st E. apply replace_cases in E as [(e & _ & Hd & _)|(p & u & win & _ & _ & _ & E)].
    + exists []. rewrite app_nil_r. split; [exact Hd | constructor].
    + destruct (triggerChange_batch _ _ _ _ _ E) as (b & Hb & F & _). exists b. auto.
  - intros E. destruct (triggerChange_batch _ _ _ _ _ E) as (b & Hb & F & _). exists b. auto.
  - intros delta. unfold History.go.
    destruct (history_go delta (window w)) as [win cbs]. intros E.
    apply dispatch_batches in E. exact E.
  - intros delta. unfold History.go.
    destruct (history_go delta (window w)) as [win cbs]. simpl. intros Hnd E.
    destruct (dispatch_once _ _ _ _ _ Hnd E) as (b & Hb & F). exists b. auto.
Qed.

(** ** Sessions *)

Section SessionFacts.
Context {W : Type} `{WindowSubset W} (d : HistoryDriver W).

Lemma to_subscribers_refl (w w' : World W) :
  deliveries w' = deliveries w -> to_subscribers w w'.
Proof. intros E. exists []. rewrite app_nil_r. split; [exact E | constructor]. Qed.

Lemma triggerChange_frame (a : Action) (w w' : World W) (c : completion unit) :
  History.triggerChange d a w = (w', c) ->
  listeners w' = listeners w /\ window w' = window w /\ to_subscribers w w'.
Proof.
  intros E. destruct (triggerChange_batch _ _ _ _ _ E) as (b & Hb & F & _).
  destruct c as [[]|e].
  - apply triggerChange_normal in E as (_ & Hw & Hl & _). repeat split; auto.
    exists b. split; [exact Hb|]. eapply Forall_impl; [|exact F]. simpl. tauto.
  - apply triggerChange_throw in E as (_ & Hw & Hl & _ & _ & _ & Hd). repeat split; auto.
    apply to_subscribers_refl, Hd.
Qed.

Lemma dispatch_frame (callbacks : list Callback) (w w' : World W) (c : completion unit) :
  History.dispatch d callbacks w = (w', c) ->
  listeners w' = listeners w /\ window w' = window w /\ to_subscribers w w'.
Proof.
  revert w. induction callbacks as [|[|i] r IH]; simpl; intros w E.
  - inversion E; subst. repeat split. apply to_subscribers_refl. reflexivity.
  - destruct (History.handlePop d w) as [w1 [[]|e]] eqn:E1.
    + apply triggerChange_frame in E1 as (Hl1 & Hw1 & b1 & Hb1 & F1).
      apply IH in E as (Hl & Hw & b & Hb & F).
      repeat split; try congruence.
      exists (b1 ++ b). split; [rewrite Hb, Hb1, app_assoc; reflexivity|].
      apply Forall_app. split; [exact F1|]. rewrite Hl1 in F. exact F.
    + inversion E; subst. apply triggerChange_frame in E1. exact E1.
  - eauto.
Qed.

Lemma set_add_in (l l' : Listener) (s : list Listener) :
  In l (set_add Nat.eqb l' s) -> In l s \/ l = l'.
Proof.
  unfold set_add. destruct (set_has Nat.eqb l' s); [auto|].
  intros Hin. apply in_app_or in Hin as [Hin|[->|[]]]; auto.
Qed.

Lemma set_delete_in (l l' : Listener) (s : list Listener) :
  In l (set_delete Nat.eqb l' s) -> In l s.
Proof. unfold set_delete. intros Hin. apply filter_In in Hin. tauto. Qed.

(** What one call of a session can do to the subscriptions and to the
    deliveries. *)
Lemma run_frame (op : Op) (w : World W) :
  (forall l, In l (listeners (fst (run d op w))) -> In l (listeners w) \/ op = OpSubscribe l) /\
  to_subscribers w (fst (run d op w)).
Proof.
  assert (Hgo : forall delta,
    (forall l, In l (listeners (fst (History.go d delta w))) -> In l (listeners w) \/ op = OpSubscribe l) /\
    to_subscribers w (fst (History.go d delta w))).
  { intros delta. unfold History.go.
    destruct (history_go delta (window w)) as [win cbs].
    destruct (History.dispatch d cbs (History.set_window win w)) as [w' c] eqn:E.
    apply dispatch_frame in E as (Hl & _ & Hs). simpl in *. split; [|exact Hs].
    intros l. rewrite Hl. auto. }
  destruct op; simpl; try apply Hgo.
  - destruct (History.push d to st w) as [w' c] eqn:E. simpl.
    apply push_cases in E as [(e & _ & Hd & _ & _ & Hl)|(p & u & win & _ & _ & _ & E)].
    + split; [rewrite Hl; auto | apply to_subscribers_refl, Hd].
    + apply triggerChange_frame in E as (Hl & _ & Hs). simpl in *.
      split; [rewrite Hl; auto | exact Hs].
  - destruct (History.replace d to st w) as [w' c] eqn:E. simpl.
    apply replace_cases in E as [(e & _ & Hd & _ & _ & Hl)|(p & u & win & _ & _ & _ & E)].
    + split; [rewrite Hl; auto | apply to_subscribers_refl, Hd].
    + apply triggerChange_frame in E as (Hl & _ & Hs). simpl in *.
      split; [rewrite Hl; auto | exact Hs].
  - split; [|apply to_subscribers_refl; reflexivity].
    intros l Hin. apply set_add_in in Hin as [Hin| ->]; auto.
  - split; [|apply to_subscribers_refl; reflexivity].
    intros l Hin. apply set_delete_in in Hin. auto.
  - split; [|apply to_subscribers_refl; reflexivity]. intros l [].
  - unfold History.window_pushState. destruct (pushState st url (window w)) as [win c].
    simpl. split; [auto | apply to_subscribers_refl; reflexivity].
  - unfold History.window_replaceState. destruct (replaceState st url (window w)) as [win c].
    simpl. split; [auto | apply to_subscribers_refl; reflexivity].
Qed.

Lemma received_app (l : Listener) (w w' : World W) :
  ~ In l (listeners w) -> to_subscribers w w' -> received l w' = received l w.
Proof.
  intros Hn (b & Hb & F). unfold received. rewrite Hb, filter_app, map_app.
  assert (E : filter (fun x : Listener * Change.t => Nat.eqb (fst x) l) b = []).
  { clear Hb. induction F as [|[l0 ch] b Hx F IH]; simpl in *; [reflexivity|].
    destruct (Nat.eqb_spec l0 l) as [->|_]; [contradiction | exact IH]. }
  rewrite E. simpl. apply app_nil_r.
Qed.

(** A listener that is not subscribed and is not subscribed again
    receives nothing, whatever is called. *)
Lemma unsubscribed_receives_nothing (l : Listener) (ops : list Op) (w : World W) :
  ~ In l (listeners w) -> ~ In (OpSubscribe l) ops ->
  received l (run_all d ops w) = received l w.
Proof.
  revert w. induction ops as [|op r IH]; simpl; intros w Hn Hops; [reflexivity|].
  destruct (run_frame op w) as (Hl & Hs).
  rewrite IH.
  - apply received_app; assumption.
  - intros Hin. apply Hl in Hin as [Hin| ->]; [contradiction | tauto].
  - tauto.
Qed.

End SessionFacts.

Lemma set_delete_idempotent (c : Callback) (s : list Callback) :
  set_delete Callback_eqb c (set_delete Callback_eqb c s) = set_delete Callback_eqb c s.
Proof.
  unfold set_delete. induction s as [|x s IH]; simpl; [reflexivity|].
  destruct (negb (Callback_eqb c x)) eqn:E; simpl; [rewrite E, IH|]; auto.
Qed.

(** C9.  After [destroy()] a listener receives nothing more, whatever is
    called afterwards on the engine ([push], [replace], [go], ...) or on the
    surface ([pushState], [replaceState], [go]), unless it is subscribed
    again; this holds on any surface and with any driver.  A second
    [destroy()] completes normally and, on the two surfaces of the
    repository, changes nothing. *)
Theorem destroy_is_final
  {W : Type} `{WindowSubset W} (d : HistoryDriver W) (w : World W)
  (l : Listener) (ops : list Op) :
  ~ In (OpSubscribe l) ops ->
  received l (run_all d ops (History.destroy w)) = received l (History.destroy w) /\
  received l (History.destroy w) = received l w /\
  run d OpDestroy (History.destroy w) = (History.destroy (History.destroy w), Normal tt) /\
  listeners (History.destroy (History.destroy w)) = [] /\
  (forall m : World MockedWindow.t, History.destroy (History.destroy m) = History.destroy m) /\
  (forall m : World TestWindow.t, History.destroy (History.destroy m) = History.destroy m).
Proof.
  intros Hops. repeat split.
  - apply unsubscribed_receives_nothing; [intros [] | exact Hops].
  - intros m. unfold History.destroy, History.set_listeners, History.set_window. simpl.
    unfold MockedWindow.removeEventListener. simpl.
    rewrite set_delete_idempotent. reflexivity.
  - intros m. unfold History.destroy, History.set_listeners, History.set_window. simpl.
    unfold TestWindow.removeEventListener. simpl.
    rewrite set_delete_idempotent. reflexivity.
Qed.

(** ** Destroying an engine *)

#[export] Instance MockedWindow_lawful : LawfulWindow MockedWindow.t.
Proof.
  split; intros name callback; intros; simpl;
    unfold MockedWindow.removeEventListener;
    destruct (String.eqb name "popstate"); try reflexivity;
    try apply surjective_pairing.
  - unfold MockedWindow.pushState, MockedWindow.last_location. simpl.
    match goal with |- context [or_else ?u ?f] => destruct (or_else u f) end; reflexivity.
  - unfold MockedWindow.replaceState, MockedWindow.last_location. simpl.
    match goal with |- context [or_else ?u ?f] => destruct (or_else u f) end; reflexivity.
Qed.

#[export] Instance TestWindow_lawful : LawfulWindow TestWindow.t.
Proof.
  split; intros name callback; intros; simpl;
    unfold TestWindow.removeEventListener;
    destruct (String.eqb name "popstate"); try reflexivity;
    try apply surjective_pairing.
  - unfold TestWindow.pushState, TestWindow.prevLocation. simpl.
    destruct (array_last (TestWindow.history win)) as [[prev s]|]; [|reflexivity].
    destruct (TestWindow.target url prev); reflexivity.
  - unfold TestWindow.replaceState, TestWindow.prevLocation. simpl.
    destruct (array_last (TestWindow.history win)) as [[prev s]|]; [|reflexivity].
    destruct (TestWindow.target url prev); reflexivity.
Qed.

Section DriversReadSurface.
Context {W : Type} `{LawfulWindow W}.

Lemma browserDriver_reads_surface : reads_surface (W := W) browserDriver.
Proof.
  intros name callback win r. simpl.
  rewrite remove_location_href, remove_history_state. reflexivity.
Qed.

Lemma hashDriver_reads_surface (hashSubstitute : string) :
  reads_surface (W := W) (hashDriver hashSubstitute).
Proof.
  intros name callback win r. simpl.
  rewrite remove_location_hash, remove_history_state. reflexivity.
Qed.


End DriversReadSurface.

Section DestroyFrame.
Context {W : Type} `{LawfulWindow W} (d : HistoryDriver W).
Hypothesis d_reads_surface : reads_surface d.


End DestroyFrame.


(** ** Length and cursor of an engine on the simulated surface *)

Section WindowOfEngine.
Context {W : Type} `{WindowSubset W} (d : HistoryDriver W).

Lemma push_window (to : string) (st : JSVal) (w w' : World W) (c : completion unit) :
  History.push d to st w = (w', c) ->
  (window w' = window w /\ c <> Normal tt) \/
  (exists prepared url c', pushState prepared url (window w) = (window w', c') /\
                           (c = Normal tt -> c' = Normal tt)).
Proof.
  unfold History.push.
  destruct (prepareState d st to (location w)) as [prepared|e];
    [|intros E; inversion E; subst; left; split; [reflexivity | discriminate]].
  destruct (prepareUrl d to (location w)) as [url|e];
    [|intros E; inversion E; subst; left; split; [reflexivity | discriminate]].
  destruct (pushState prepared url (window w)) as [win [[]|e]] eqn:Ep; intros E.
  - apply triggerChange_frame in E as (_ & Hw & _). simpl in Hw.
    right. exists prepared, url, (Normal tt). rewrite Hw. auto.
  - inversion E; subst. right. exists prepared, url, (Throw e). split; [exact Ep | discriminate].
Qed.

Lemma replace_window (to : string) (st : JSVal) (w w' : World W) (c : completion unit) :
  History.replace d to st w = (w', c) ->
  window w' = window w \/
  (exists prepared url c', replaceState prepared url (window w) = (window w', c')).
Proof.
  unfold History.replace.
  destruct (prepareState d st to (location w)) as [prepared|e];
    [|intros E; inversion E; subst; left; reflexivity].
  destruct (prepareUrl d to (location w)) as [url|e];
    [|intros E; inversion E; subst; left; reflexivity].
  destruct (replaceState prepared url (window w)) as [win [[]|e]] eqn:Ep; intros E.
  - apply triggerChange_frame in E as (_ & Hw & _). simpl in Hw.
    right. exists prepared, url, (Normal tt). rewrite Hw. auto.
  - inversion E; subst. right. exists prepared, url, (Throw e). exact Ep.
Qed.

Lemma go_window (delta : option Z) (w w' : World W) (c : completion unit) :
  History.go d delta w = (w', c) -> window w' = fst (history_go delta (window w)).
Proof.
  unfold History.go. destruct (history_go delta (window w)) as [win cbs]. intros E.
  apply dispatch_frame in E as (_ & Hw & _). exact Hw.
Qed.

End WindowOfEngine.

Section SimulatedSurfaceInvariant.
Import MockedWindow.

Lemma Forall_firstn {A : Type} (P : A -> Prop) (n : nat) (l : list A) :
  Forall P l -> Forall P (firstn n l).
Proof.
  revert n. induction l as [|x l IH]; intros [|n] F; simpl; try constructor.
  - inversion F; assumption.
  - inversion F; auto.
Qed.

Lemma array_set_filled {A : Type} (a : list (option A)) (i : nat) (x : A) :
  (i < List.length a)%nat ->
  Forall (fun e => e <> None) a -> Forall (fun e => e <> None) (array_set a i x).
Proof.
  revert i. induction a as [|y a IH]; intros [|i] Hi F; simpl in *; try lia;
    inversion F; subst; constructor; auto; [discriminate | apply IH; [lia | assumption]].
Qed.

Lemma createMockedWindow_well_formed (initial : string) :
  well_formed (createMockedWindow initial).
Proof.
  split; [unfold valid_cursor; simpl; lia|]. simpl. constructor; [discriminate | constructor].
Qed.

Lemma last_location_well_formed (w : t) :
  well_formed w -> exists l, last_location w = Normal l.
Proof.
  intros [Hv F]. unfold last_location.
  destruct (array_last_valid (history w) F) as [[l s] E].
  - unfold valid_cursor in Hv. destruct (history w); [simpl in Hv; lia | discriminate].
  - rewrite E. eauto.
Qed.

Lemma or_else_normal (url : option string) (fallback : completion string) :
  (exists l, fallback = Normal l) -> exists l, or_else url fallback = Normal l.
Proof.
  intros [l ->]. unfold or_else. destruct url as [u|]; [|eauto].
  destruct (String.eqb u ""); eauto.
Qed.

(** On a surface in good order [pushState] completes: it keeps the
    entries up to the cursor, drops those after it, appends the new entry
    and moves the cursor onto it. *)
Lemma pushState_well_formed (st : JSVal) (url : option string) (w w' : t)
  (c : completion unit) :
  well_formed w -> pushState st url w = (w', c) ->
  c = Normal tt /\ well_formed w' /\ index w' = S (index w) /\
  listeners w' = listeners w /\
  List.length (history w') = S (S (index w)) /\
  exists l, history w' = firstn (S (index w)) (history w) ++ [Some (l, st)].
Proof.
  intros Hwf. unfold pushState.
  destruct (or_else_normal url (last_location
    {| index := S (index w); history := history w; listeners := listeners w |})) as [l ->].
  { apply (last_location_well_formed w Hwf). }
  intros E. inversion E; subst; clear E. simpl.
  destruct Hwf as [Hv F]. unfold valid_cursor in Hv.
  assert (Hlen : List.length (array_splice_to_end (history w) (S (index w)) (l, st))
                 = S (S (index w))) by (apply firstn_splice_length; lia).
  repeat split; auto.
  - unfold valid_cursor. simpl. lia.
  - simpl. unfold array_splice_to_end. apply Forall_app. split.
    + apply Forall_firstn, F.
    + constructor; [discriminate | constructor].
  - exists l. reflexivity.
Qed.

Lemma replaceState_well_formed (st : JSVal) (url : option string) (w w' : t)
  (c : completion unit) :
  well_formed w -> replaceState st url w = (w', c) ->
  c = Normal tt /\ well_formed w' /\ index w' = index w /\
  listeners w' = listeners w /\
  List.length (history w') = List.length (history w).
Proof.
  intros Hwf. unfold replaceState.
  destruct (or_else_normal url (last_location w)) as [l ->].
  { apply (last_location_well_formed w Hwf). }
  intros E. inversion E; subst; clear E. simpl.
  destruct Hwf as [Hv F]. unfold valid_cursor in Hv.
  assert (Hlen : List.length (array_set (history w) (index w) (l, st))
                 = List.length (history w)) by (apply array_set_length; lia).
  repeat split; auto.
  - unfold valid_cursor. simpl. lia.
  - simpl. apply array_set_filled; assumption.
Qed.

Lemma go_well_formed (delta : option Z) (w : t) :
  well_formed w -> well_formed (fst (go delta w)) /\
  history (fst (go delta w)) = history w /\ listeners (fst (go delta w)) = listeners w.
Proof.
  intros [Hv F]. split; [split|].
  - apply go_valid, Hv.
  - destruct delta as [dl|]; simpl; [|exact F]. destruct (Nat.eqb _ _); exact F.
  - destruct delta as [dl|]; simpl; [|auto]. destruct (Nat.eqb _ _); auto.
Qed.

End SimulatedSurfaceInvariant.

Section EngineOnSimulatedSurface.
Variable d : HistoryDriver MockedWindow.t.

(** Whatever is called on the engine or on the surface, the surface stays
    in good order. *)
Lemma run_well_formed (op : Op) (w : World MockedWindow.t) :
  well_formed (window w) -> well_formed (window (fst (run d op w))).
Proof.
  intros Hwf.
  assert (Hgo : forall delta, well_formed (window (fst (History.go d delta w)))).
  { intros delta. destruct (History.go d delta w) as [w' c] eqn:E.
    apply go_window in E. simpl. rewrite E. apply go_well_formed, Hwf. }
  destruct op; simpl; try apply Hgo; try exact Hwf.
  - destruct (History.push d to st w) as [w' c] eqn:E. simpl.
    apply push_window in E as [[-> _]|(p & u & c' & E & _)]; [exact Hwf|].
    apply (pushState_well_formed _ _ _ _ _ Hwf E).
  - destruct (History.replace d to st w) as [w' c] eqn:E. simpl.
    apply replace_window in E as [->|(p & u & c' & E)]; [exact Hwf|].
    apply (replaceState_well_formed _ _ _ _ _ Hwf E).
  - unfold History.window_pushState.
    destruct (pushState st url (window w)) as [win c] eqn:E. simpl.
    apply (pushState_well_formed _ _ _ _ _ Hwf E).
  - unfold History.window_replaceState.
    destruct (replaceState st url (window w)) as [win c] eqn:E. simpl.
    apply (replaceState_well_formed _ _ _ _ _ Hwf E).
Qed.




End EngineOnSimulatedSurface.


Lemma createHistory_window {W : Type} `{WindowSubset W} (d : HistoryDriver W)
  (win : W) (w : World W) :
  History.createHistory d win = Normal w ->
  window w = addEventListener "popstate" HandlePop win /\
  getLocation d win 0 = Normal (location w) /\
  from w = None /\ listeners w = [] /\ deliveries w = [] /\ next_ref w = 1%nat.
Proof.
  unfold History.createHistory.
  destruct (getLocation d win 0) as [l|e]; simpl; intros E; inversion E; subst.
  simpl. repeat split.
Qed.




(** ** The memory driver on a surface it shares *)

Section JSArrayFacts.
Context {A : Type}.

Lemma array_get_nil (j : nat) : array_get (@nil (option A)) j = None.
Proof. unfold array_get. destruct j; reflexivity. Qed.

Lemma array_get_set_nil (i j : nat) (x : A) :
  i <> j -> array_get (array_set [] i x) j = None.
Proof.
  revert j. induction i as [|i IH]; intros [|j] Hne; simpl; try congruence.
  - apply array_get_nil.
  - reflexivity.
  - apply (IH j). congruence.
Qed.

Lemma array_get_set_other (a : list (option A)) (i j : nat) (x : A) :
  i <> j -> array_get (array_set a i x) j = array_get a j.
Proof.
  revert i j. induction a as [|y a IH]; intros i j Hne.
  - rewrite array_get_nil. apply array_get_set_nil, Hne.
  - destruct i as [|i], j as [|j]; simpl; try congruence; try reflexivity.
    apply (IH i j). congruence.
Qed.

Lemma array_get_set_same (a : list (option A)) (i : nat) (x : A) :
  array_get (array_set a i x) i = Some x.
Proof.
  unfold array_get. revert i. induction a as [|y a IH]; intros i.
  - induction i as [|i IHi]; simpl; auto.
  - destruct i; simpl; auto.
Qed.

End JSArrayFacts.

Lemma set_add_has (c : Callback) (s : list Callback) : In c (set_add Callback_eqb c s).
Proof.
  unfold set_add, set_has. destruct (existsb (Callback_eqb c) s) eqn:E.
  - apply existsb_exists in E as (x & Hin & Hx).
    destruct c, x; simpl in Hx; try discriminate; [exact Hin|].
    apply Nat.eqb_eq in Hx. subst. exact Hin.
  - apply in_or_app. right. left. reflexivity.
Qed.

Section MemoryOnSharedSurface.
Context {W : Type} `{WindowSubset W}.

(** The memory driver refuses a state without its marker. *)
Lemma memory_getLocation_lacks_marker (win : W) (r : nat) :
  lacks_marker (history_state win) ->
  getLocation memoryDriver win r = Throw out_of_memory_history.
Proof. unfold lacks_marker. simpl. intros ->. reflexivity. Qed.

Lemma dispatch_throw (d : HistoryDriver W) (callbacks : list Callback)
  (w w' : World W) (e : exn) :
  In HandlePop callbacks ->
  History.handlePop d w = (w', Throw e) ->
  History.dispatch d callbacks w = (w', Throw e).
Proof.
  intros Hin E. induction callbacks as [|[|i] r IH]; simpl.
  - destruct Hin.
  - rewrite E. reflexivity.
  - apply IH. destruct Hin as [Hin|Hin]; [discriminate | exact Hin].
Qed.

End MemoryOnSharedSurface.

(** C2, as the code has it.  A memory engine made on a surface writes its
    own state over the current entry, so what the current entry held before
    does not matter.  [back()] raises [navigation out of memory history]
    when the entry before the cursor holds a state without the marker;
    nothing is delivered, [location] stays and [from] has been set.  The
    driver's [getLocation] raises that failure on every surface whose
    current state lacks the marker. *)
Theorem back_out_of_memory_history
  (win : TestWindow.t) (initial : string) (w : World TestWindow.t) :
  (0 < TestWindow.index win < List.length (TestWindow.history win))%nat ->
  lacks_marker (state_at (TestWindow.history win) (TestWindow.index win - 1)) ->
  createMemoryHistory initial win = Normal w ->
  snd (History.back memoryDriver w) = Throw (Error "navigation out of memory history") /\
  deliveries (fst (History.back memoryDriver w)) = deliveries w /\
  location (fst (History.back memoryDriver w)) = location w /\
  from (fst (History.back memoryDriver w)) = Some (location w) /\
  (forall (V : Type) `(WindowSubset V) (v : V) (r : nat),
     lacks_marker (history_state v) ->
     getLocation memoryDriver v r = Throw (Error "navigation out of memory history")).
Proof.
  intros Hi Hm E.
  assert (Hback : exists w', History.back memoryDriver w = (w', Throw out_of_memory_history)
                             /\ deliveries w' = deliveries w /\ location w' = location w
                             /\ from w' = Some (location w)).
  { unfold createMemoryHistory in E.
    destruct (memory_prepareState JNull initial None) as [prepared|e]; simpl in E;
      [|discriminate].
    unfold TestWindow.replaceState in E.
    destruct (TestWindow.prevLocation win) as [prev|e]; [|discriminate].
    simpl in E. apply createHistory_window in E as (Hw & _).
    unfold History.back, History.go. rewrite Hw. simpl.
    rewrite array_set_length by lia.
    replace (clamp (List.length (TestWindow.history win)) (TestWindow.index win) (-1))
      with (TestWindow.index win - 1)%nat by (unfold clamp; lia).
    destruct (Nat.eqb_spec (TestWindow.index win - 1) (TestWindow.index win)) as [Heq|_];
      [lia|].
    simpl.
    match goal with |- context [History.dispatch _ _ ?x] => set (w1 := x) end.
    assert (Hg : getLocation memoryDriver (window w1) (next_ref w1)
                 = Throw out_of_memory_history).
    { apply memory_getLocation_lacks_marker. subst w1. simpl.
      unfold TestWindow.state. simpl.
      rewrite array_get_set_other by lia. exact Hm. }
    pose proof (triggerChange_when_throw memoryDriver POP w1 _ Hg) as Ep.
    eexists. split.
    - apply dispatch_throw; [apply set_add_has | exact Ep].
    - subst w1. simpl. repeat split. }
  destruct Hback as (w' & -> & Hd & Hl & Hf). simpl.
  repeat split; auto.
  intros V HV v r Hv. apply memory_getLocation_lacks_marker, Hv.
Qed.

(** The scenario of the repository's test: somebody else pushes an entry
    on the surface, then a memory engine is made on it and [back()] is
    called. *)
Lemma back_out_of_memory_history_witness :
  TestWindow.createWindowSubset "/" = Normal seeded_window /\
  TestWindow.pushState JNull (Some "/foo") seeded_window
  = (foreign_pushed_window, Normal tt) /\
  exists w,
    createMemoryHistory "foo?bar" foreign_pushed_window = Normal w /\
    snd (History.back memoryDriver w) = Throw (Error "navigation out of memory history").
Proof.
  split; [vm_compute; reflexivity|].
  split; [vm_compute; reflexivity|].
  eexists. split; [vm_compute; reflexivity|].
  match goal with
  | |- snd (History.back _ ?w) = _ =>
      apply (back_out_of_memory_history foreign_pushed_window "foo?bar" w)
  end.
  - vm_compute. lia.
  - vm_compute. reflexivity.
  - vm_compute. reflexivity.
Defined.

(** C2 as stated fails: the current state of this surface was set by a
    foreign [replaceState], a memory engine is made on it, and [back()]
    completes (the cursor is on the first entry, so it does nothing). *)
Lemma back_after_foreign_replaceState_completes :
  TestWindow.createWindowSubset "/" = Normal seeded_window /\
  TestWindow.replaceState JNull (Some "/foo") seeded_window
  = (foreign_replaced_window, Normal tt) /\
  TestWindow.state foreign_replaced_window = JNull /\
  lacks_marker (TestWindow.state foreign_replaced_window) /\
  exists w,
    createMemoryHistory "foo?bar" foreign_replaced_window = Normal w /\
    History.back memoryDriver w = (w, Normal tt) /\
    snd (History.back memoryDriver w) <> Throw (Error "navigation out of memory history").
Proof.
  split; [vm_compute; reflexivity|].
  split; [vm_compute; reflexivity|].
  split; [vm_compute; reflexivity|].
  split; [vm_compute; reflexivity|].
  eexists. split; [vm_compute; reflexivity|].
  split; [vm_compute; reflexivity|].
  vm_compute. discriminate.
Qed.

(** ** Pushing and going back *)

Section ResolvingAgainstTheMemoryBase.

Lemma drop_trailing_cons (c : ascii) (r : string) :
  URL.is_C0_or_space c = false ->
  URL.drop_trailing (String c r) = String c (URL.drop_trailing r).
Proof. intros Hc. simpl. rewrite Hc. destruct (URL.drop_trailing r); reflexivity. Qed.

Lemma preprocess_memory_base (tail : string) :
  exists t, URL.preprocess ("https://m.com/" ++ tail)%string = ("https://m.com/" ++ t)%string.
Proof.
  unfold URL.preprocess.
  change (URL.drop_leading ("https://m.com/" ++ tail)%string)
    with ("https://m.com/" ++ tail)%string.
  simpl append.
  repeat (rewrite drop_trailing_cons by reflexivity).
  simpl. eexists. reflexivity.
Qed.

(** The base the memory driver resolves against parses, whatever follows
    the first slash of the current href. *)
Lemma memory_base_parses (tail : string) :
  exists p q f,
    URL.basic_url_parser ("https://m.com/" ++ tail)%string None =
    Normal {| URL.scheme := "https"; URL.username := ""; URL.password := "";
              URL.host := Some "m.com"; URL.port := None;
              URL.path := URL.Segments p; URL.query := q; URL.fragment := f |}.
Proof.
  unfold URL.basic_url_parser. destruct (preprocess_memory_base tail) as [t ->].
  cbn -[URL.path_state].
  destruct (URL.path_state true [] "" t) as [[p q] f]. eauto.
Qed.

Lemma memory_prepareState_foo (st : JSVal) (tail : string) :
  memory_prepareState st "/foo" (Some ("/" ++ tail)%string) = Normal (envelope st "/foo").
Proof.
  unfold memory_prepareState, URL.new.
  change ("https://m.com" ++ "/" ++ tail)%string with ("https://m.com/" ++ tail)%string.
  destruct (memory_base_parses tail) as (p & q & f & ->).
  reflexivity.
Qed.

End ResolvingAgainstTheMemoryBase.

Section LocationFacts.

(** [href] is [path + search + hash] in every location. *)
Lemma createLocation_href (r : nat) (h : string) (st : JSVal) (l : Location) :
  createLocation r h st = Normal l ->
  href l = (path l ++ search l ++ hash l)%string /\ ref l = r /\ state l = st.
Proof.
  unfold createLocation.
  destruct (URL.new _ None) as [u|e]; simpl; intros E; inversion E; subst.
  simpl. auto.
Qed.

Lemma createLocation_ref (r r' : nat) (h : string) (st : JSVal) (l : Location) :
  createLocation r h st = Normal l -> createLocation r' h st = Normal (with_ref r' l).
Proof.
  unfold createLocation.
  destruct (URL.new _ None) as [u|e]; simpl; intros E; inversion E; subst.
  reflexivity.
Qed.

(** Each of the three drivers builds the location at the reference it is
    given, so a change leaves the engine with an object that did not exist
    before: equality of locations is identity of objects. *)
Lemma drivers_allocate {W : Type} `{WindowSubset W} (d : HistoryDriver W)
  (win : W) (r : nat) (l : Location) :
  d = browserDriver \/ (exists hashSubstitute, d = hashDriver hashSubstitute)
  \/ d = memoryDriver ->
  getLocation d win r = Normal l -> ref l = r.
Proof.
  intros [->|[[hashSubstitute ->]| ->]]; simpl.
  - destruct (location_href win); [|discriminate]. simpl.
    intros E. apply (createLocation_href _ _ _ _ E).
  - destruct (location_hash win) as [h|]; [|discriminate]. simpl.
    destruct (URI.decodeURIComponent (slice1 h)); [|discriminate]. simpl.
    intros E. apply (createLocation_href _ _ _ _ E).
  - destruct (negb (truthy (get (history_state win) IS_MEMORY_HISTORY_STATE)));
      [discriminate|].
    destruct (get (history_state win) "href"); try discriminate.
    intros E. apply (createLocation_href _ _ _ _ E).
Qed.

Lemma changed_location_is_fresh {W : Type} `{WindowSubset W} (d : HistoryDriver W)
  (a : Action) (w w' : World W) :
  d = browserDriver \/ (exists hashSubstitute, d = hashDriver hashSubstitute)
  \/ d = memoryDriver ->
  History.triggerChange d a w = (w', Normal tt) ->
  ref (location w') = next_ref w /\ next_ref w' = S (next_ref w).
Proof.
  intros Hd E. apply triggerChange_normal in E as (Hg & _ & _ & _ & Hn & _).
  split; [apply (drivers_allocate d _ _ _ Hd Hg) | exact Hn].
Qed.

End LocationFacts.

Section MemoryEngineOnSimulatedSurface.

Lemma triggerChange_when_normal {W : Type} `{WindowSubset W} (d : HistoryDriver W)
  (a : Action) (w : World W) (l : Location) :
  getLocation d (window w) (next_ref w) = Normal l ->
  History.triggerChange d a w =
  ({| window := window w; location := l; from := Some (location w);
      listeners := listeners w;
      deliveries := deliveries w ++ map (fun x => (x, change_of a w
                      {| window := window w; location := l; from := Some (location w);
                         listeners := listeners w; deliveries := deliveries w;
                         next_ref := S (next_ref w) |})) (listeners w);
      next_ref := S (next_ref w) |}, Normal tt).
Proof. unfold History.triggerChange. simpl. intros ->. reflexivity. Qed.

Lemma dispatch_normal {W : Type} `{WindowSubset W} (d : HistoryDriver W)
  (callbacks : list Callback) (w w' : World W) :
  NoDup callbacks -> In HandlePop callbacks ->
  History.handlePop d w = (w', Normal tt) ->
  History.dispatch d callbacks w = (w', Normal tt).
Proof.
  intros Hnd Hin E. induction callbacks as [|[|i] r IH]; simpl.
  - destruct Hin.
  - rewrite E. apply dispatch_without_handler. inversion Hnd; assumption.
  - apply IH; [inversion Hnd; assumption|].
    destruct Hin as [Hin|Hin]; [discriminate | exact Hin].
Qed.

(** The memory driver looks at the state of the current entry only. *)
Lemma memory_getLocation_state {W : Type} `{WindowSubset W} (win win' : W) (r : nat) :
  history_state win' = history_state win ->
  getLocation memoryDriver win' r = getLocation memoryDriver win r.
Proof. simpl. intros ->. reflexivity. Qed.

Lemma memory_getLocation_ref {W : Type} `{WindowSubset W} (win : W) (r r' : nat)
  (l : Location) :
  getLocation memoryDriver win r = Normal l ->
  getLocation memoryDriver win r' = Normal (with_ref r' l) /\
  href l = (path l ++ search l ++ hash l)%string.
Proof.
  simpl. destruct (negb (truthy (get (history_state win) IS_MEMORY_HISTORY_STATE)));
    [discriminate|].
  destruct (get (history_state win) "href"); try discriminate.
  intros E. split; [apply (createLocation_ref _ _ _ _ _ E)|].
  apply (createLocation_href _ _ _ _ E).
Qed.

Lemma memory_getLocation_envelope {W : Type} `{WindowSubset W} (win : W) (r : nat)
  (st : JSVal) :
  history_state win = envelope st "/foo" ->
  getLocation memoryDriver win r =
  Normal {| ref := r; href := "/foo"; path := "/foo"; search := ""; hash := "";
            state := st |}.
Proof. simpl. intros ->. reflexivity. Qed.

Lemma array_get_spliced_new {A : Type} (a : list (option A)) (i : nat) (x : A) :
  (i <= List.length a)%nat -> array_get (array_splice_to_end a i x) i = Some x.
Proof.
  intros Hi. unfold array_get, array_splice_to_end.
  rewrite nth_error_app2 by (rewrite length_firstn; lia).
  rewrite length_firstn. replace (i - Nat.min i (List.length a))%nat with 0%nat by lia.
  reflexivity.
Qed.

Lemma array_get_spliced_old {A : Type} (a : list (option A)) (i j : nat) (x : A) :
  (j < i)%nat -> (i <= List.length a)%nat ->
  array_get (array_splice_to_end a i x) j = array_get a j.
Proof.
  intros Hj Hi. unfold array_get, array_splice_to_end.
  rewrite nth_error_app1 by (rewrite length_firstn; lia).
  rewrite nth_error_firstn.
  destruct (Nat.ltb_spec j i); [reflexivity | lia].
Qed.

End MemoryEngineOnSimulatedSurface.

Lemma memory_push_then_back (w : World MockedWindow.t) (st : JSVal) :
  in_step w -> path (location w) = "/"%string -> pops_back memoryDriver w st.
Proof.
  intros (Hwf & Hnd & Hin & Hsync) Hpath. unfold pops_back.
  destruct (memory_getLocation_ref _ _ (next_ref w) _ Hsync) as (_ & Hhref).
  rewrite Hpath in Hhref.
  (* push *)
  unfold History.push.
  change (prepareState memoryDriver st "/foo" (location w))
    with (memory_prepareState st "/foo" (Some (href (location w)))).
  rewrite Hhref, memory_prepareState_foo.
  change (prepareUrl memoryDriver "/foo" (location w)) with (Normal (@None string)).
  cbv iota beta.
  destruct (pushState (envelope st "/foo") None (window w)) as [win1 c] eqn:Ep.
  destruct (pushState_well_formed _ _ _ _ _ Hwf Ep) as (-> & Hwf1 & Hi1 & Hl1 & Hlen1 & h & Hh1).
  assert (Hv : (MockedWindow.index (window w) < List.length (MockedWindow.history (window w)))%nat)
    by apply Hwf.
  assert (Hs1 : history_state win1 = envelope st "/foo").
  { simpl. unfold MockedWindow.state. rewrite Hh1, Hi1.
    change (firstn ?n ?a ++ [Some ?x]) with (array_splice_to_end a n x).
    rewrite array_get_spliced_new by lia. reflexivity. }
  rewrite (triggerChange_when_normal memoryDriver PUSH (History.set_window win1 w)
             _ (memory_getLocation_envelope win1 _ st Hs1)).
  do 2 eexists. split; [reflexivity|].
  (* back *)
  unfold History.back, History.go.
  cbn [window location listeners deliveries next_ref History.set_window].
  change (history_go (Some (-1)%Z) win1) with (MockedWindow.go (Some (-1)%Z) win1).
  unfold MockedWindow.go. cbn [MockedWindow.index MockedWindow.history MockedWindow.listeners].
  rewrite Hlen1, Hi1.
  replace (clamp (S (S (MockedWindow.index (window w)))) (S (MockedWindow.index (window w))) (-1))
    with (MockedWindow.index (window w)) by (unfold clamp; lia).
  destruct (Nat.eqb_spec (MockedWindow.index (window w)) (S (MockedWindow.index (window w))))
    as [Heq|_]; [lia|].
  match goal with |- context [History.dispatch _ _ ?x] => set (wb := x) end.
  assert (Hs2 : history_state (window wb) = history_state (window w)).
  { subst wb. simpl. unfold MockedWindow.state. simpl. rewrite Hh1.
    change (firstn ?n ?a ++ [Some ?x]) with (array_splice_to_end a n x).
    rewrite array_get_spliced_old by lia. reflexivity. }
  destruct (memory_getLocation_ref _ _ (next_ref wb) _ Hsync) as (Hg & _).
  rewrite <- (memory_getLocation_state _ _ _ Hs2) in Hg.
  pose proof (triggerChange_when_normal memoryDriver POP wb _ Hg) as Epop.
  split.
  - apply dispatch_normal; [rewrite Hl1; exact Hnd | rewrite Hl1; exact Hin | exact Epop].
  - subst wb. cbn. repeat split. exact Hpath.
Qed.

(** C5.  On a memory engine in step with the simulated surface and at path
    [/], whatever its history, subscriptions and state, [push('/foo')]
    followed by [back()] calls every subscribed listener with action POP, a
    location of path [/] and a [from] of path [/foo].  The memory engine
    made without a window starts in step.  The same holds for the browser,
    hash and memory engines made on the test surface seeded with [/]. *)
Theorem push_then_back_pops (st : JSVal) (l : Listener) :
  (forall w : World MockedWindow.t,
      in_step w -> path (location w) = "/"%string -> pops_back memoryDriver w st) /\
  (exists w, createMemoryHistory_mocked "/" = Normal w /\
             in_step (History.subscribe l w) /\
             path (location (History.subscribe l w)) = "/"%string) /\
  (exists w, createBrowserHistory seeded_window = Normal w /\
             path (location w) = "/"%string /\
             pops_back browserDriver (History.subscribe l w) st) /\
  (exists w, createHashHistory default_hashSubstitute seeded_window = Normal w /\
             path (location w) = "/"%string /\
             pops_back (hashDriver default_hashSubstitute) (History.subscribe l w) st) /\
  (exists w, createMemoryHistory "/" seeded_window = Normal w /\
             path (location w) = "/"%string /\
             pops_back memoryDriver (History.subscribe l w) st).
Proof.
  split; [intros w; apply memory_push_then_back|].
  split; [|split; [run_scenario | split; run_scenario]].
  eexists. split; [vm_compute; reflexivity|]. split; [|vm_compute; reflexivity].
  split; [split; [vm_compute; lia | repeat constructor; discriminate]|].
  split; [repeat constructor; simpl; tauto|].
  split; [left; reflexivity | vm_compute; reflexivity].
Qed.

(** ** The hash driver's substitute *)

(** C7.  On a hash engine configured with the substitute [ↈ] (U+2188, the
    one of the repository's test) and made on the test surface, pushing
    [/foo] and then [#bar] hands the surface the URL [#/fooↈbar]: the inner
    fragment follows the substitute, not a second [#].  The surface's hash
    is then [#/foo%E2%86%88bar], and the location read back from it has
    path [/foo] and hash [#bar].  The trip also succeeds with the default
    substitute and with every usable one-character ASCII substitute. *)
Theorem hash_substitute_round_trip :
  (exists w w1 w2,
      createHashHistory "ↈ" seeded_window = Normal w /\
      History.push (hashDriver "ↈ") "/foo" JUndefined w = (w1, Normal tt) /\
      prepareUrl (hashDriver (W := TestWindow.t) "ↈ") "#bar" (location w1)
      = Normal (Some "#/fooↈbar"%string) /\
      History.push (hashDriver "ↈ") "#bar" JUndefined w1 = (w2, Normal tt) /\
      location_hash (window w2) = Normal "#/foo%E2%86%88bar"%string /\
      getLocation (hashDriver "ↈ") (window w2) (ref (location w2)) = Normal (location w2) /\
      path (location w2) = "/foo"%string /\
      hash (location w2) = "#bar"%string /\
      href (location w2) = "/foo#bar"%string) /\
  round_trips "ↈ" seeded_window = true /\
  round_trips default_hashSubstitute seeded_window = true /\
  (forall c, usable_substitute c = true -> round_trips (String c "") seeded_window = true).
Proof.
  split; [|split; [|split]].
  - do 3 eexists.
    split; [vm_compute; reflexivity|].
    split; [vm_compute; reflexivity|].
    split; [vm_compute; reflexivity|].
    split; [vm_compute; reflexivity|].
    split; [vm_compute; reflexivity|].
    split; [vm_compute; reflexivity|].
    split; [vm_compute; reflexivity|].
    split; vm_compute; reflexivity.
  - vm_compute. reflexivity.
  - vm_compute. reflexivity.
  - intros [[] [] [] [] [] [] [] []]; vm_compute; intros E; try reflexivity; discriminate E.
Qed.

(** ** Normalising the path *)

Section StripTrailingSlash.

Lemma slashes_to_end_app (p : string) (c : ascii) (s : string) :
  Ascii.eqb "/" c = false -> slashes_to_end (p ++ String c s)%string = false.
Proof.
  intros Hc. unfold slashes_to_end.
  assert (E : Str.forallb (Ascii.eqb "/") (p ++ String c s)%string = false).
  { induction p as [|d p IH]; cbn [append Str.forallb]; [rewrite Hc; reflexivity|].
    rewrite IH. apply andb_false_r. }
  rewrite E. apply andb_false_r.
Qed.

(** The second [replace] of [createLocation] takes the character before
    the trailing slash with it. *)
Lemma strip_trailing_slash_takes_two (p : string) (c : ascii) :
  regexp_dot c = true -> Ascii.eqb "/" c = false ->
  strip_trailing_slash (p ++ String c "/")%string = p.
Proof.
  intros Hdot Hc. induction p as [|d p IH]; cbn [append strip_trailing_slash].
  - rewrite Hdot. reflexivity.
  - rewrite slashes_to_end_app by exact Hc. rewrite andb_false_r, IH. reflexivity.
Qed.

End StripTrailingSlash.

(** C1, at its own example.  [createLocation("/foo//bar/")] prepends the
    slash and collapses the repeated slashes as stated, giving [/foo/bar/];
    the last step then removes [r/], not [/], and the path is [/foo/ba],
    not [/foo/bar].  In general the last step removes the trailing slash
    together with the character before it. *)
Theorem trailing_slash_takes_a_character (r : nat) (st : JSVal) :
  createLocation r "/foo//bar/" st
  = Normal {| ref := r; href := "/foo/ba"; path := "/foo/ba"; search := ""; hash := "";
              state := st |} /\
  URL.new "pr:/foo//bar/" None
  = Normal {| URL.scheme := "pr"; URL.username := ""; URL.password := "";
              URL.host := None; URL.port := None;
              URL.path := URL.Segments ["foo"; ""; "bar"; ""];
              URL.query := None; URL.fragment := None |} /\
  collapse_slashes "//foo//bar/" = "/foo/bar/"%string /\
  strip_trailing_slash "/foo/bar/" = "/foo/ba"%string /\
  (forall p c, regexp_dot c = true -> Ascii.eqb "/" c = false ->
               strip_trailing_slash (p ++ String c "/")%string = p).
Proof.
  split; [vm_compute; reflexivity|].
  split; [vm_compute; reflexivity|].
  split; [vm_compute; reflexivity|].
  split; [vm_compute; reflexivity|].
  exact strip_trailing_slash_takes_two.
Qed.

(** ** What the URL parser leaves in a path *)

Section PathSegments.

Lemma clean_spec (c : ascii) :
  clean c = true ->
  URL.path_set c = false /\ Ascii.eqb c "/" = false /\ Ascii.eqb c "?" = false /\
  Ascii.eqb c "#" = false /\ URL.is_C0_or_space c = false /\
  URL.is_tab_or_newline c = false.
Proof.
  destruct c as [[] [] [] [] [] [] [] []]; vm_compute; intros E;
    try discriminate E; repeat split.
Qed.

Lemma encode_char_clean (c : ascii) :
  Ascii.eqb c "/" = false -> Str.forallb clean (URL.encode_char URL.path_set c) = true.
Proof.
  destruct c as [[] [] [] [] [] [] [] []]; vm_compute; intros E;
    try discriminate E; reflexivity.
Qed.

Lemma forallb_app (p : ascii -> bool) (a b : string) :
  Str.forallb p (a ++ b)%string = Str.forallb p a && Str.forallb p b.
Proof.
  induction a as [|c a IH]; cbn [append Str.forallb]; [reflexivity|].
  rewrite IH. apply andb_assoc.
Qed.

Lemma Forall_removelast {A : Type} (P : A -> Prop) (l : list A) :
  Forall P l -> Forall P (removelast l).
Proof.
  induction l as [|x l IH]; intros F; [constructor|].
  inversion F; subst. simpl. destruct l; [constructor|]. constructor; auto.
Qed.

Lemma flush_good (p : list string) (buffer : string) (at_slash : bool) :
  Forall good p -> Str.forallb clean buffer = true -> Forall good (URL.flush p buffer at_slash).
Proof.
  intros F Hb. unfold URL.flush, URL.shorten.
  assert (Hempty : Forall good [""%string]) by (constructor; [reflexivity | constructor]).
  destruct (URL.is_double_dot buffer) eqn:Edd.
  - destruct at_slash; [|apply Forall_app; split; [|exact Hempty]];
      apply Forall_removelast, F.
  - destruct (URL.is_single_dot buffer) eqn:Esd.
    + destruct at_slash; [exact F|]. apply Forall_app. split; [exact F | exact Hempty].
    + apply Forall_app. split; [exact F|]. constructor; [|constructor].
      unfold good_segment. rewrite Hb, Esd, Edd. reflexivity.
Qed.

Lemma path_state_good (special : bool) (s : string) :
  forall p buffer,
    Forall good p -> Str.forallb clean buffer = true ->
    Forall good (fst (fst (URL.path_state special p buffer s))).
Proof.
  induction s as [|c s IH]; intros p buffer F Hb; cbn [URL.path_state].
  - apply flush_good; assumption.
  - destruct (URL.is_separator special c) eqn:Esep.
    + apply IH; [apply flush_good; assumption | reflexivity].
    + destruct (Ascii.eqb c "?").
      * destruct (URL.query_state special s) as [q f]. apply flush_good; assumption.
      * destruct (Ascii.eqb c "#"); [apply flush_good; assumption|].
        apply IH; [exact F|]. rewrite forallb_app, Hb. apply encode_char_clean.
        unfold URL.is_separator in Esep. apply orb_false_elim in Esep. tauto.
Qed.

Lemma path_start_state_good (special : bool) (s : string) :
  Forall good (fst (fst (URL.path_start_state special s))).
Proof.
  assert (Hps : forall sp t, Forall good (fst (fst (URL.path_state sp [] "" t)))).
  { intros sp t. apply path_state_good; [constructor | reflexivity]. }
  unfold URL.path_start_state. destruct s as [|c s].
  - destruct special; [apply Hps | constructor].
  - destruct special.
    + destruct (URL.is_separator true c); apply Hps.
    + destruct (Ascii.eqb c "?"); [destruct (URL.query_state false s); constructor|].
      destruct (Ascii.eqb c "#"); [constructor|].
      destruct (Ascii.eqb c "/"); apply Hps.
Qed.

Lemma authority_state_good (sch s : string) (u : URL.url) (segments : list string) :
  URL.authority_state sch s = Normal u -> URL.path u = URL.Segments segments ->
  Forall good segments.
Proof.
  unfold URL.authority_state.
  destruct (Str.span _ s) as [authority rest].
  pose proof (path_start_state_good (URL.is_special sch) rest) as Hg.
  destruct (URL.path_start_state (URL.is_special sch) rest) as [[p q] f].
  simpl in Hg.
  destruct (match Str.break_last _ authority with Some _ => _ | None => _ end)
    as [[[user pass] hostport]|e]; [|discriminate].
  cbn [cbind].
  destruct (URL.host_split false hostport) as [buffer port_part].
  destruct (match port_part with Some _ => _ | None => _ end) as [hp|e]; [|discriminate].
  cbn [cbind]. intros E Hp. inversion E; subst. simpl in Hp. inversion Hp; subst. exact Hg.
Qed.

(** A path the parser makes without a base has good segments. *)
Lemma basic_url_parser_good (input : string) (u : URL.url) (segments : list string) :
  URL.basic_url_parser input None = Normal u -> URL.path u = URL.Segments segments ->
  Forall good segments.
Proof.
  unfold URL.basic_url_parser.
  destruct (URL.scheme_start_state (URL.preprocess input)) as [[sch remaining]|];
    [|discriminate].
  destruct (String.eqb sch "file"); [discriminate|].
  destruct (URL.is_special sch) eqn:Esp.
  - unfold URL.special_authority_slashes_state, URL.special_authority_ignore_slashes_state.
    destruct (Str.starts_with "//" remaining); apply authority_state_good.
  - destruct remaining as [|c remaining].
    + destruct (URL.opaque_path_state "") as [[p q] f]. intros E Hp.
      inversion E; subst. discriminate Hp.
    + assert (Hopaque : forall t v,
        (let '(p, q, f) := URL.opaque_path_state t in
         Normal {| URL.scheme := sch; URL.username := ""; URL.password := "";
                   URL.host := None; URL.port := None; URL.path := URL.OpaquePath p;
                   URL.query := q; URL.fragment := f |}) = Normal v ->
        URL.path v = URL.Segments segments -> Forall good segments).
      { intros t v. destruct (URL.opaque_path_state t) as [[p q] f]. intros E Hp.
        inversion E; subst. discriminate Hp. }
      destruct (Ascii.eqb_spec c "/") as [->|Hne].
      * unfold URL.path_or_authority_state.
        destruct remaining as [|c' remaining].
        -- pose proof (path_state_good false "" [] "" (Forall_nil _) eq_refl) as Hg.
           destruct (URL.path_state false [] "" "") as [[p q] f]. intros E Hp.
           inversion E; subst. simpl in Hp. inversion Hp; subst. exact Hg.
        -- destruct (Ascii.eqb_spec c' "/") as [->|Hne'].
           ++ apply authority_state_good.
           ++ pose proof (path_state_good false (String c' remaining) [] ""
                            (Forall_nil _) eq_refl) as Hg.
              destruct c' as [[] [] [] [] [] [] [] []]; try congruence;
                (destruct (URL.path_state false [] "" _) as [[p q] f]; intros E Hp;
                 inversion E; subst; simpl in Hp; inversion Hp; subst; exact Hg).
      * destruct c as [[] [] [] [] [] [] [] []]; try congruence; apply Hopaque.
Qed.

End PathSegments.

(** ** Parsing a normalised path again *)

Section ParsingAgain.

Lemma good_segment_spec (seg : string) :
  good_segment seg = true ->
  Str.forallb clean seg = true /\ URL.is_single_dot seg = false /\
  URL.is_double_dot seg = false.
Proof.
  unfold good_segment. intros E.
  apply andb_prop in E as [E Hdd]. apply andb_prop in E as [Hc Hsd].
  apply negb_true_iff in Hdd, Hsd. auto.
Qed.

Lemma append_assoc (a b c : string) : ((a ++ b) ++ c = a ++ (b ++ c))%string.
Proof. induction a as [|x a IH]; simpl; [reflexivity | rewrite IH; reflexivity]. Qed.

Lemma append_nil_r (a : string) : (a ++ "")%string = a.
Proof. induction a as [|x a IH]; simpl; [reflexivity | rewrite IH; reflexivity]. Qed.

Lemma flush_segment (p : list string) (seg : string) (at_slash : bool) :
  good_segment seg = true -> URL.flush p seg at_slash = p ++ [seg].
Proof.
  intros Hg. apply good_segment_spec in Hg as (_ & Hsd & Hdd).
  unfold URL.flush. rewrite Hdd, Hsd. reflexivity.
Qed.

(** The path state copies clean characters into its buffer. *)
Lemma path_state_clean_prefix (seg : string) :
  forall p buffer s,
    Str.forallb clean seg = true ->
    URL.path_state false p buffer (seg ++ s)%string
    = URL.path_state false p (buffer ++ seg)%string s.
Proof.
  induction seg as [|c seg IH]; intros p buffer s Hc.
  - rewrite append_nil_r. reflexivity.
  - cbn [Str.forallb] in Hc. apply andb_prop in Hc as [Hcc Hc].
    apply clean_spec in Hcc as (Hps & Hs & Hq & Hh & _).
    cbn [append URL.path_state]. unfold URL.is_separator. rewrite Hs, Hq, Hh.
    cbn [orb andb]. unfold URL.encode_char. rewrite Hps.
    rewrite IH by exact Hc. rewrite append_assoc. reflexivity.
Qed.

(** On the serialisation of good segments the path state gives the
    segments back. *)
Lemma path_state_serialize (q : list string) :
  forall seg p,
    Forall good (seg :: q) ->
    URL.path_state false p "" (seg ++ URL.serialize_segments q)%string
    = (p ++ seg :: q, None, None).
Proof.
  induction q as [|seg2 q IH]; intros seg p F; inversion F as [|? ? Hseg F']; subst.
  - cbn [URL.serialize_segments].
    rewrite path_state_clean_prefix by apply (good_segment_spec _ Hseg).
    cbn [URL.path_state append]. rewrite flush_segment by exact Hseg. reflexivity.
  - cbn [URL.serialize_segments].
    rewrite path_state_clean_prefix by apply (good_segment_spec _ Hseg).
    cbn [URL.path_state append].
    change (URL.is_separator false "/") with true. cbv iota.
    rewrite flush_segment by exact Hseg.
    rewrite IH by exact F'. rewrite <- app_assoc. reflexivity.
Qed.

Lemma drop_trailing_id (s : string) :
  Str.forallb (fun c => negb (URL.is_C0_or_space c)) s = true -> URL.drop_trailing s = s.
Proof.
  induction s as [|c s IH]; cbn [Str.forallb]; intros E; [reflexivity|].
  apply andb_prop in E as [Hc E]. apply negb_true_iff in Hc.
  rewrite drop_trailing_cons by exact Hc. rewrite IH by exact E. reflexivity.
Qed.

Lemma filter_tab_id (s : string) :
  Str.forallb (fun c => negb (URL.is_C0_or_space c)) s = true ->
  Str.filter (fun c => negb (URL.is_tab_or_newline c)) s = s.
Proof.
  induction s as [|c s IH]; cbn [Str.forallb Str.filter]; intros E; [reflexivity|].
  apply andb_prop in E as [Hc E].
  assert (Ht : URL.is_tab_or_newline c = false).
  { destruct c as [[] [] [] [] [] [] [] []]; vm_compute in Hc |- *;
      try reflexivity; discriminate Hc. }
  rewrite Ht. cbn [negb]. rewrite IH by exact E. reflexivity.
Qed.

Lemma preprocess_id (s : string) :
  Str.forallb (fun c => negb (URL.is_C0_or_space c)) s = true -> URL.preprocess s = s.
Proof.
  intros E. unfold URL.preprocess.
  assert (Hl : URL.drop_leading s = s).
  { destruct s as [|c s]; [reflexivity|]. cbn [Str.forallb] in E.
    apply andb_prop in E as [Hc _]. apply negb_true_iff in Hc.
    cbn [URL.drop_leading]. rewrite Hc. reflexivity. }
  rewrite Hl, drop_trailing_id by exact E. apply filter_tab_id, E.
Qed.

Lemma clean_forallb_printable (seg : string) :
  Str.forallb clean seg = true ->
  Str.forallb (fun c => negb (URL.is_C0_or_space c)) seg = true.
Proof.
  induction seg as [|c seg IH]; cbn [Str.forallb]; intros E; [reflexivity|].
  apply andb_prop in E as [Hc E]. apply clean_spec in Hc as (_ & _ & _ & _ & Hc & _).
  rewrite Hc, IH by exact E. reflexivity.
Qed.

Lemma serialize_printable (q : list string) :
  Forall good q ->
  Str.forallb (fun c => negb (URL.is_C0_or_space c)) (URL.serialize_segments q) = true.
Proof.
  induction q as [|seg q IH]; intros F; [reflexivity|].
  inversion F as [|? ? Hseg F']; subst.
  cbn [URL.serialize_segments append Str.forallb].
  rewrite forallb_app, IH by exact F'.
  rewrite clean_forallb_printable by apply (good_segment_spec _ Hseg). reflexivity.
Qed.

Lemma path_or_authority_state_path (sch : string) (s : string) :
  Str.starts_with "/" s = false ->
  URL.path_or_authority_state sch s =
  let '(p, q, f) := URL.path_state false [] "" s in
  Normal {| URL.scheme := sch; URL.username := ""; URL.password := ""; URL.host := None;
            URL.port := None; URL.path := URL.Segments p; URL.query := q;
            URL.fragment := f |}.
Proof.
  destruct s as [|c s]; [reflexivity|].
  destruct c as [[] [] [] [] [] [] [] []]; intros E; try reflexivity.
  vm_compute in E. discriminate E.
Qed.

Lemma starts_with_slash_clean (seg s : string) :
  Str.forallb clean seg = true -> seg <> ""%string ->
  Str.starts_with "/" (seg ++ s)%string = false.
Proof.
  destruct seg as [|c seg]; [congruence|]. cbn [Str.forallb]. intros E _.
  apply andb_prop in E as [Hc _]. apply clean_spec in Hc as (_ & Hs & _).
  cbn [append Str.starts_with]. rewrite Ascii.eqb_sym, Hs. reflexivity.
Qed.

(** [new URL("pr:" + path)] for the serialisation of good segments, the
    first of them not empty unless it is the only one. *)
Lemma parse_serialized (seg : string) (q : list string) :
  Forall good (seg :: q) -> (seg = ""%string -> q = []) ->
  URL.new ("pr:" ++ URL.serialize_segments (seg :: q))%string None =
  Normal {| URL.scheme := "pr"; URL.username := ""; URL.password := ""; URL.host := None;
            URL.port := None; URL.path := URL.Segments (seg :: q); URL.query := None;
            URL.fragment := None |}.
Proof.
  intros F Hshape. unfold URL.new, URL.basic_url_parser.
  rewrite preprocess_id
    by (cbn [append Str.forallb]; rewrite (serialize_printable _ F); reflexivity).
  cbn [URL.serialize_segments].
  change (URL.scheme_start_state ("pr:" ++ String "/" seg ++ URL.serialize_segments q)%string)
    with (Some ("pr"%string, (String "/" seg ++ URL.serialize_segments q)%string)).
  cbv iota beta. change (String.eqb "pr" "file") with false.
  change (URL.is_special "pr") with false. cbv iota. cbn [append].
  assert (Hstart : Str.starts_with "/" (seg ++ URL.serialize_segments q)%string = false).
  { destruct seg as [|c seg].
    - rewrite (Hshape eq_refl). reflexivity.
    - apply starts_with_slash_clean; [|discriminate].
      inversion F as [|? ? Hseg _]; subst. apply (good_segment_spec _ Hseg). }
  rewrite (path_or_authority_state_path _ _ Hstart).
  rewrite (path_state_serialize q seg [] F). reflexivity.
Qed.

End ParsingAgain.

Section CollapsingSlashes.

Lemma collapse_slash_slash (s : string) :
  collapse_slashes (String "/" (String "/" s)) = collapse_slashes (String "/" s).
Proof. reflexivity. Qed.

Lemma collapse_slash_other (c : ascii) (s : string) :
  Ascii.eqb c "/" = false ->
  collapse_slashes (String "/" (String c s)) = String "/" (collapse_slashes (String c s)).
Proof.
  destruct c as [[] [] [] [] [] [] [] []]; intros E; try reflexivity.
  vm_compute in E. discriminate E.
Qed.

Lemma collapse_clean_prefix (seg s : string) :
  Str.forallb clean seg = true ->
  collapse_slashes (seg ++ s)%string = (seg ++ collapse_slashes s)%string.
Proof.
  induction seg as [|c seg IH]; cbn [Str.forallb append]; intros E; [reflexivity|].
  apply andb_prop in E as [Hc E]. apply clean_spec in Hc as (_ & Hs & _).
  cbn [collapse_slashes]. rewrite Hs, IH by exact E. reflexivity.
Qed.

Lemma compact_not_nil (p : list string) : compact p <> [].
Proof.
  induction p as [|seg p IH]; simpl; [discriminate|].
  destruct (String.eqb seg ""); [exact IH | discriminate].
Qed.

(** Collapsing the slashes of a serialised path leaves the serialisation
    of its compacted segments. *)
Lemma collapse_serialize (p : list string) :
  Forall good p ->
  collapse_slashes (String "/" (URL.serialize_segments p))
  = URL.serialize_segments (compact p).
Proof.
  induction p as [|seg p IH]; intros F; [reflexivity|].
  inversion F as [|? ? Hseg F']; subst. specialize (IH F').
  apply good_segment_spec in Hseg as (Hc & _).
  cbn [URL.serialize_segments append compact].
  rewrite collapse_slash_slash.
  destruct seg as [|c seg].
  - cbn [append String.eqb]. exact IH.
  - replace (String.eqb (String c seg) "") with false by reflexivity.
    pose proof Hc as Hc'. cbn [Str.forallb] in Hc'. apply andb_prop in Hc' as [Hcc _].
    apply clean_spec in Hcc as (_ & Hs & _).
    cbn [append]. rewrite collapse_slash_other by exact Hs.
    change (String c (seg ++ URL.serialize_segments p)%string)
      with (String c seg ++ URL.serialize_segments p)%string.
    rewrite collapse_clean_prefix by exact Hc.
    destruct p as [|seg2 p]; [reflexivity|].
    cbn [URL.serialize_segments append] in IH |- *.
    rewrite collapse_slash_slash in IH. rewrite IH. reflexivity.
Qed.

Lemma compact_good (p : list string) : Forall good p -> Forall good (compact p).
Proof.
  induction p as [|seg p IH]; intros F; simpl.
  - constructor; [reflexivity | constructor].
  - inversion F; subst. destruct (String.eqb seg ""); [auto|].
    constructor; [assumption|]. destruct p; [constructor | auto].
Qed.

Lemma compact_shape (p : list string) :
  exists seg q, compact p = seg :: q /\ (seg = ""%string -> q = []).
Proof.
  induction p as [|seg p IH]; simpl; [eauto|].
  destruct (String.eqb_spec seg ""); [exact IH|].
  eexists _, _. split; [reflexivity | congruence].
Qed.

Lemma compact_idempotent (p : list string) : compact (compact p) = compact p.
Proof.
  induction p as [|seg p IH]; [reflexivity|]. simpl.
  destruct (String.eqb_spec seg "") as [_|Hne]; [exact IH|].
  simpl. destruct (String.eqb_spec seg ""); [contradiction|]. f_equal.
  destruct p as [|seg2 p]; [reflexivity|].
  destruct (compact (seg2 :: p)) eqn:E; [destruct (compact_not_nil _ E) | exact IH].
Qed.

End CollapsingSlashes.

(** C8, as the code has it.  When [createLocation(x)] parses [x] into a URL
    with a path of segments (not an opaque path), the normalised path has
    no colon, and its collapsed form has no trailing slash for the last
    step to strip, then [createLocation] succeeds on that path and gives
    the same path. *)
Theorem parse_path_idempotent
  (x : string) (u : URL.url) (segments : list string) (r r' : nat) (st st' : JSVal) :
  URL.new (if Str.includes x ":" then x else ("pr:" ++ x)%string) None = Normal u ->
  URL.path u = URL.Segments segments ->
  Str.includes (normalize (URL.pathname u)) ":" = false ->
  strip_trailing_slash (collapse_slashes (String "/" (URL.pathname u)))
  = collapse_slashes (String "/" (URL.pathname u)) ->
  exists loc loc',
    createLocation r x st = Normal loc /\
    path loc = normalize (URL.pathname u) /\
    createLocation r' (path loc) st' = Normal loc' /\
    path loc' = path loc.
Proof.
  intros Hu Hp Hcolon Hstrip.
  pose proof (basic_url_parser_good _ _ _ Hu Hp) as F.
  assert (Hpn : URL.pathname u = URL.serialize_segments segments).
  { unfold URL.pathname. rewrite Hp. reflexivity. }
  assert (Hn : normalize (URL.pathname u) = URL.serialize_segments (compact segments)).
  { unfold normalize. rewrite Hstrip, Hpn. apply collapse_serialize, F. }
  assert (Hn' : normalize (URL.serialize_segments (compact segments))
                = URL.serialize_segments (compact segments)).
  { unfold normalize.
    rewrite collapse_serialize by apply compact_good, F.
    rewrite compact_idempotent.
    rewrite <- (collapse_serialize segments F), <- Hpn. exact Hstrip. }
  destruct (compact_shape segments) as (seg & q & Hq & Hshape).
  pose proof (compact_good _ F) as Fq. rewrite Hq in Fq, Hn', Hn.
  rewrite Hn in Hcolon.
  assert (H2 : createLocation r' (URL.serialize_segments (seg :: q)) st'
               = Normal {| ref := r'; href := URL.serialize_segments (seg :: q);
                           path := URL.serialize_segments (seg :: q);
                           search := ""; hash := ""; state := st' |}).
  { unfold createLocation. rewrite Hcolon.
    rewrite (parse_serialized seg q Fq Hshape). cbn [cbind].
    unfold URL.pathname. cbn [URL.path]. rewrite Hn'.
    cbn [URL.search URL.hash URL.query URL.fragment]. rewrite append_nil_r. reflexivity. }
  unfold createLocation at 1. rewrite Hu. cbn [cbind]. rewrite Hn.
  eexists. eexists. split; [reflexivity|]. cbn [path]. split; [reflexivity|].
  rewrite H2. split; reflexivity.
Qed.

Lemma parse_path_idempotent_witness :
  exists loc loc',
    createLocation 0 "/foo//bar?q#h" JUndefined = Normal loc /\
    path loc = "/foo/bar"%string /\
    createLocation 1 (path loc) JNull = Normal loc' /\
    path loc' = path loc.
Proof.
  pose proof (parse_path_idempotent "/foo//bar?q#h"
                {| URL.scheme := "pr"; URL.username := ""; URL.password := "";
                   URL.host := None; URL.port := None;
                   URL.path := URL.Segments ["foo"; ""; "bar"];
                   URL.query := Some "q"%string; URL.fragment := Some "h"%string |}
                ["foo"; ""; "bar"]%string 0 1 JUndefined JNull) as H.
  assert (H1 : URL.new "pr:/foo//bar?q#h" None
               = Normal {| URL.scheme := "pr"; URL.username := ""; URL.password := "";
                           URL.host := None; URL.port := None;
                           URL.path := URL.Segments ["foo"; ""; "bar"];
                           URL.query := Some "q"%string;
                           URL.fragment := Some "h"%string |})
    by (vm_compute; reflexivity).
  specialize (H H1 eq_refl).
  assert (H3 : Str.includes (normalize "/foo//bar") ":" = false) by (vm_compute; reflexivity).
  assert (H4 : strip_trailing_slash (collapse_slashes "//foo//bar")
               = collapse_slashes "//foo//bar") by (vm_compute; reflexivity).
  destruct (H H3 H4) as (loc & loc' & E1 & E2 & E3 & E4).
  exists loc, loc'. repeat split; assumption.
Defined.

(** C8 as stated fails.  The path of a URL may hold a colon, and
    [createLocation] takes a string with a colon for an absolute URL: it
    succeeds on [https://example.com/a:b] and raises on the path [/a:b] it
    returns.  A string without a leading slash is given an opaque path,
    which is then parsed as a path of segments: [..] yields [/..], and
    [/..] yields [/]. *)
Lemma parse_not_idempotent :
  (exists loc,
      createLocation 0 "https://example.com/a:b" JUndefined = Normal loc /\
      path loc = "/a:b"%string /\
      createLocation 0 (path loc) JUndefined = Throw (TypeError "Invalid URL")) /\
  (exists loc loc',
      createLocation 0 ".." JUndefined = Normal loc /\
      createLocation 0 (path loc) JUndefined = Normal loc' /\
      path loc = "/.."%string /\ path loc' = "/"%string /\ path loc' <> path loc).
Proof.
  split.
  - eexists. split; [vm_compute; reflexivity|]. split; vm_compute; reflexivity.
  - do 2 eexists. split; [vm_compute; reflexivity|]. split; [vm_compute; reflexivity|].
    split; [reflexivity|]. split; [reflexivity|]. discriminate.
Qed.

(** ** The properties at the scenarios of the repository's tests *)

Lemma destroy_is_final_witness :
  exists w w1,
    createMemoryHistory_mocked "/" = Normal w /\
    History.push memoryDriver "/foo" JUndefined
      (History.subscribe 1 (History.subscribe 2 w)) = (w1, Normal tt) /\
    List.length (received 1 w1) = 1%nat /\
    received 1
      (run_all memoryDriver
         [OpPush "/bar" JUndefined; OpBack; OpSubscribe 3; OpReplace "/baz" JUndefined;
          OpWindowPushState JNull None; OpWindowGo (Some (-1)%Z)]
         (History.destroy w1))
    = received 1 (History.destroy w1).
Proof.
  do 2 eexists.
  split; [vm_compute; reflexivity|].
  split; [vm_compute; reflexivity|].
  split; [vm_compute; reflexivity|].
  match goal with
  | |- received ?l (run_all ?d ?ops (History.destroy ?w)) = _ =>
      refine (proj1 (destroy_is_final d w l ops _))
  end.
  intros [E|[E|[E|[E|[E|[E|[]]]]]]]; discriminate E.
Defined.


Lemma push_then_back_pops_witness :
  exists w,
    createMemoryHistory_mocked "/" = Normal w /\
    pops_back memoryDriver (History.subscribe 7 w) JUndefined.
Proof.
  destruct (push_then_back_pops JUndefined 7) as (Hgeneral & (w & Hw & Hstep & Hpath) & _).
  exists w. split; [exact Hw|]. apply Hgeneral; assumption.
Defined.

(** The test of [length]: 1, then 6 after five pushes, then 2 after
    [go(-5)] and one push. *)
Example length_of_the_memory_engine :
  exists w0 w5 w6 w7,
    createMemoryHistory_mocked "/" = Normal w0 /\
    History.length w0 = 1%nat /\
    push_all memoryDriver
      [("/2", JUndefined); ("/3", JUndefined); ("/4", JUndefined); ("/5", JUndefined);
       ("/6", JUndefined)]%string w0 = (w5, Normal tt) /\
    History.length w5 = 6%nat /\
    History.go memoryDriver (Some (-5)%Z) w5 = (w6, Normal tt) /\
    History.push memoryDriver "/2" JUndefined w6 = (w7, Normal tt) /\
    History.length w7 = 2%nat.
Proof.
  do 4 eexists.
  split; [vm_compute; reflexivity|].
  split; [vm_compute; reflexivity|].
  split; [vm_compute; reflexivity|].
  split; [vm_compute; reflexivity|].
  split; [vm_compute; reflexivity|].
  split; vm_compute; reflexivity.
Qed.

(** * Further properties of the code *)

(** ** The shape of a path *)

Section PathShape.

Lemma collapse_other (c : ascii) (s : string) :
  Ascii.eqb c "/" = false -> collapse_slashes (String c s) = String c (collapse_slashes s).
Proof. intros E. cbn [collapse_slashes]. rewrite E. reflexivity. Qed.

Lemma starts_with_slash_cons (c : ascii) (s : string) :
  Str.starts_with "/" (String c s) = Ascii.eqb c "/".
Proof.
  cbn [Str.starts_with]. rewrite andb_true_r. apply Ascii.eqb_sym.
Qed.

Lemma collapse_no_double_slash (s : string) :
  has_double_slash (collapse_slashes s) = false /\
  Str.starts_with "/" (collapse_slashes s) = Str.starts_with "/" s.
Proof.
  induction s as [|c r [IH1 IH2]]; [split; reflexivity|].
  destruct (Ascii.eqb_spec c "/") as [->|Hc].
  - destruct r as [|c' r']; [split; reflexivity|].
    destruct (Ascii.eqb_spec c' "/") as [->|Hc'].
    + rewrite collapse_slash_slash. split; [exact IH1|].
      rewrite IH2. reflexivity.
    + apply Ascii.eqb_neq in Hc'. rewrite collapse_slash_other by exact Hc'.
      split; [|reflexivity].
      cbn [has_double_slash]. rewrite IH1, IH2, starts_with_slash_cons, Hc'. reflexivity.
  - apply Ascii.eqb_neq in Hc. rewrite collapse_other by exact Hc.
    split.
    + cbn [has_double_slash]. rewrite Hc, IH1. reflexivity.
    + rewrite !starts_with_slash_cons. reflexivity.
Qed.

Lemma strip_trailing_slash_prefix (s : string) :
  exists t, s = (strip_trailing_slash s ++ t)%string.
Proof.
  induction s as [|c r [t IH]]; [exists ""%string; reflexivity|].
  cbn [strip_trailing_slash].
  destruct (regexp_dot c && slashes_to_end r).
  - exists (String c r). reflexivity.
  - exists t. cbn [append]. rewrite <- IH. reflexivity.
Qed.

Lemma starts_with_app (p a b : string) :
  Str.starts_with p a = true -> Str.starts_with p (a ++ b)%string = true.
Proof.
  revert a. induction p as [|x p IH]; intros a E; [reflexivity|].
  destruct a as [|y a]; [discriminate E|].
  cbn [Str.starts_with append] in *. apply andb_prop in E as [E1 E2].
  rewrite E1, IH by exact E2. reflexivity.
Qed.

Lemma has_double_slash_prefix (a b : string) :
  has_double_slash (a ++ b)%string = false -> has_double_slash a = false.
Proof.
  induction a as [|c a IH]; [reflexivity|].
  cbn [append has_double_slash]. intros E. apply orb_false_elim in E as [E1 E2].
  rewrite IH by exact E2. rewrite orb_false_r.
  destruct (Ascii.eqb c "/"); [|reflexivity]. cbn [andb] in *.
  destruct (Str.starts_with "/" a) eqn:Ea; [|reflexivity].
  rewrite (starts_with_app _ _ b Ea) in E1. discriminate E1.
Qed.

Lemma slashes_to_end_starts (r : string) :
  slashes_to_end r = true -> Str.starts_with "/" r = true.
Proof.
  destruct r as [|c r]; [discriminate|].
  unfold slashes_to_end. cbn [Str.forallb String.eqb negb andb].
  intros E. apply andb_prop in E as [E _].
  rewrite starts_with_slash_cons, Ascii.eqb_sym. exact E.
Qed.

Lemma normalize_shape (pathname : string) :
  Str.starts_with "/" (normalize pathname) = true /\
  has_double_slash (normalize pathname) = false.
Proof.
  unfold normalize.
  destruct (collapse_no_double_slash (String "/" pathname)) as [Hd Hs].
  change (Str.starts_with "/" (String "/" pathname)) with true in Hs.
  destruct (strip_trailing_slash_prefix (collapse_slashes (String "/" pathname))) as [t Ht].
  split.
  - destruct (collapse_slashes (String "/" pathname)) as [|c r]; [discriminate Hs|].
    rewrite starts_with_slash_cons in Hs. apply Ascii.eqb_eq in Hs. subst c.
    cbn [strip_trailing_slash].
    destruct (slashes_to_end r) eqn:Er; [|rewrite andb_false_r; reflexivity].
    apply slashes_to_end_starts in Er. cbn [has_double_slash] in Hd.
    rewrite Er in Hd. discriminate Hd.
  - rewrite Ht in Hd. apply (has_double_slash_prefix _ _ Hd).
Qed.

End PathShape.

(** X1.  Every location [createLocation] returns has a path that begins
    with a slash and holds no two slashes in a row, and its href is its
    path followed by its search and its hash.  (The path may still end in a
    slash: [/a/b/] gives [/a/].) *)
Theorem location_path_shape (r : nat) (h : string) (st : JSVal) (l : Location) :
  createLocation r h st = Normal l ->
  Str.starts_with "/" (path l) = true /\
  has_double_slash (path l) = false /\
  href l = (path l ++ search l ++ hash l)%string /\
  state l = st.
Proof.
  unfold createLocation.
  destruct (URL.new _ None) as [u|e]; simpl; intros E; inversion E; subst; clear E.
  cbn [path href search hash state].
  destruct (normalize_shape (URL.pathname u)) as [Hs Hd]. auto.
Qed.

Lemma location_path_shape_witness :
  exists l,
    createLocation 0 "/a/b/" JUndefined = Normal l /\
    path l = "/a/"%string /\
    Str.starts_with "/" (path l) = true /\ has_double_slash (path l) = false.
Proof.
  eexists. split; [vm_compute; reflexivity|]. split; [reflexivity|].
  match goal with
  | |- Str.starts_with "/" (path ?l) = true /\ _ =>
      pose proof (location_path_shape 0 "/a/b/" JUndefined l) as H
  end.
  destruct (H ltac:(vm_compute; reflexivity)) as (H1 & H2 & _). split; assumption.
Defined.

(** ** Failures of [createLocation] and of the drivers *)

Section Failures.

Lemma preprocess_slash (h : string) :
  exists t, URL.preprocess (String "/" h) = String "/" t.
Proof.
  unfold URL.preprocess.
  change (URL.drop_leading (String "/" h)) with (String "/" h).
  rewrite drop_trailing_cons by reflexivity.
  cbn [Str.filter]. change (negb (URL.is_tab_or_newline "/")) with true. cbv iota.
  eexists. reflexivity.
Qed.

Lemma new_URL_slash_fails (h : string) :
  URL.new (String "/" h) None = Throw (TypeError "Invalid URL").
Proof.
  unfold URL.new, URL.basic_url_parser.
  destruct (preprocess_slash h) as [t ->]. reflexivity.
Qed.

Lemma starts_with_slash_inv (h : string) :
  Str.starts_with "/" h = true -> exists t, h = String "/" t.
Proof.
  destruct h as [|c t]; [discriminate|].
  rewrite starts_with_slash_cons. intros E. apply Ascii.eqb_eq in E. subst.
  eauto.
Qed.

(** An escape cut short: whatever comes before it, [decodeURIComponent]
    raises. *)
Lemma tokens_stray_percent (n : nat) :
  forall a b,
    (String.length a <= n)%nat -> two_hex b = false ->
    URI.tokens (a ++ String "%" b)%string = Throw (URIError "URI malformed").
Proof.
  induction n as [|n IH]; intros a b Hn Hb.
  - destruct a; [|simpl in Hn; lia].
    cbn [append URI.tokens]. change (Ascii.eqb "%" "%") with true. cbv iota.
    destruct b as [|h [|l b]]; try reflexivity.
    unfold two_hex in Hb. rewrite Hb. reflexivity.
  - destruct a as [|c a].
    + apply (IH ""%string b); [simpl; lia | exact Hb].
    + cbn [append URI.tokens]. simpl in Hn.
      destruct (Ascii.eqb c "%").
      * destruct a as [|h [|l a]].
        -- cbn [append]. destruct b as [|l b]; [reflexivity|].
           change (Str.is_hex "%") with false. reflexivity.
        -- cbn [append]. change (Str.is_hex "%") with false.
           rewrite andb_false_r. reflexivity.
        -- cbn [append]. destruct (Str.is_hex h && Str.is_hex l); [|reflexivity].
           rewrite IH; [reflexivity | simpl in Hn; lia | exact Hb].
      * rewrite IH; [reflexivity | lia | exact Hb].
Qed.

End Failures.

(** X2.  [createLocation] takes an href that holds a colon for an absolute
    URL, so it raises the URL parser's [TypeError] on every href that
    begins with a slash and holds a colon.  The memory driver then raises
    it on every entry whose stored href is such a path. *)
Theorem colon_in_a_path_raises (h : string) (r : nat) (st : JSVal) :
  Str.starts_with "/" h = true -> Str.includes h ":" = true ->
  createLocation r h st = Throw (TypeError "Invalid URL") /\
  (forall (W : Type) `(WindowSubset W) (win : W),
      history_state win = envelope st h ->
      getLocation memoryDriver win r = Throw (TypeError "Invalid URL")).
Proof.
  intros Hs Hc.
  assert (E : createLocation r h st = Throw (TypeError "Invalid URL")).
  { unfold createLocation. rewrite Hc.
    destruct (starts_with_slash_inv h Hs) as [t ->].
    rewrite new_URL_slash_fails. reflexivity. }
  split; [exact E|].
  intros W HW win Hw. simpl. rewrite Hw. exact E.
Qed.

Lemma colon_in_a_path_raises_witness :
  createLocation 0 "/a:b" JNull = Throw (TypeError "Invalid URL").
Proof.
  apply (colon_in_a_path_raises "/a:b" 0 JNull); reflexivity.
Defined.

(** X3.  The hash driver decodes the surface's hash with
    [decodeURIComponent], so on a surface whose hash holds a [%] that is
    not followed by two hex digits its [getLocation] raises [URIError], and
    so does [createHashHistory]. *)
Theorem stray_percent_in_the_hash_raises
  {W : Type} `{WindowSubset W} (hashSubstitute : string) (win : W) (r : nat)
  (c : ascii) (a b : string) :
  location_hash win = Normal (String c (a ++ String "%" b))%string ->
  two_hex b = false ->
  getLocation (hashDriver hashSubstitute) win r = Throw (URIError "URI malformed") /\
  createHashHistory hashSubstitute win = Throw (URIError "URI malformed").
Proof.
  intros Hh Hb.
  assert (E : forall r', getLocation (hashDriver hashSubstitute) win r'
                         = Throw (URIError "URI malformed")).
  { intros r'. simpl. rewrite Hh. cbn [cbind slice1 Str.drop].
    unfold URI.decodeURIComponent.
    rewrite (tokens_stray_percent (String.length a) a b (le_n _) Hb). reflexivity. }
  split; [apply E|].
  unfold createHashHistory, History.createHistory. rewrite E. reflexivity.
Qed.

Lemma stray_percent_in_the_hash_raises_witness :
  exists win,
    TestWindow.pushState JUndefined (Some "#/100%") seeded_window = (win, Normal tt) /\
    TestWindow.hash win = Normal "#/100%"%string /\
    createHashHistory default_hashSubstitute win = Throw (URIError "URI malformed").
Proof.
  eexists. split; [vm_compute; reflexivity|]. split; [vm_compute; reflexivity|].
  match goal with
  | |- createHashHistory ?s ?win = _ =>
      refine (proj2 (stray_percent_in_the_hash_raises s win 0 "#" "/100" "" _ _))
  end; vm_compute; reflexivity.
Defined.

(** ** Subscriptions *)

Section Subscriptions.
Context {W : Type} `{WindowSubset W} (d : HistoryDriver W).

Lemma set_add_NoDup (l : Listener) (s : list Listener) :
  NoDup s -> NoDup (set_add Nat.eqb l s).
Proof.
  intros Hnd. unfold set_add, set_has.
  destruct (existsb (Nat.eqb l) s) eqn:E; [exact Hnd|].
  assert (Hl : ~ In l s).
  { intros Hin. assert (Ex : existsb (Nat.eqb l) s = true); [|congruence].
    apply existsb_exists. exists l. split; [exact Hin | apply Nat.eqb_refl]. }
  clear E. induction Hnd as [|x s Hx Hnd IH]; simpl.
  - constructor; [intros [] | constructor].
  - constructor.
    + intros Hin. apply in_app_or in Hin as [Hin|[<-|[]]]; [exact (Hx Hin)|].
      apply Hl. left. reflexivity.
    + apply IH. intros Hin. apply Hl. right. exact Hin.
Qed.

Lemma set_add_present (l : Listener) (s : list Listener) :
  In l s -> set_add Nat.eqb l s = s.
Proof.
  intros Hin. unfold set_add, set_has.
  replace (existsb (Nat.eqb l) s) with true; [reflexivity|].
  symmetry. apply existsb_exists. exists l. split; [exact Hin | apply Nat.eqb_refl].
Qed.

Lemma set_add_member (l : Listener) (s : list Listener) : In l (set_add Nat.eqb l s).
Proof.
  unfold set_add, set_has. destruct (existsb (Nat.eqb l) s) eqn:E.
  - apply existsb_exists in E as (x & Hx & Ex). apply Nat.eqb_eq in Ex. subst. exact Hx.
  - apply in_or_app. right. left. reflexivity.
Qed.

Lemma set_delete_spec (l l' : Listener) (s : list Listener) :
  In l' (set_delete Nat.eqb l s) <-> In l' s /\ l' <> l.
Proof.
  unfold set_delete. rewrite filter_In. split; intros [Hin Hne]; split; auto.
  - intros ->. rewrite Nat.eqb_refl in Hne. discriminate.
  - apply negb_true_iff, Nat.eqb_neq. congruence.
Qed.

Lemma set_delete_absent (l : Listener) (s : list Listener) :
  ~ In l s -> set_delete Nat.eqb l s = s.
Proof.
  intros Hn. unfold set_delete. induction s as [|x s IH]; [reflexivity|]. simpl.
  destruct (Nat.eqb_spec l x) as [->|_]; [exfalso; apply Hn; left; reflexivity|].
  simpl. rewrite IH; [reflexivity|]. intros Hin. apply Hn. right. exact Hin.
Qed.

(** What a call does to the subscriptions. *)
Lemma run_listeners (op : Op) (w : World W) :
  listeners (fst (run d op w)) =
  match op with
  | OpSubscribe l => set_add Nat.eqb l (listeners w)
  | OpUnsubscribe l => set_delete Nat.eqb l (listeners w)
  | OpDestroy => []
  | _ => listeners w
  end.
Proof.
  assert (Hgo : forall delta, listeners (fst (History.go d delta w)) = listeners w).
  { intros delta. unfold History.go.
    destruct (history_go delta (window w)) as [win cbs].
    destruct (History.dispatch d cbs (History.set_window win w)) as [w' c] eqn:E.
    apply dispatch_frame in E as (Hl & _). exact Hl. }
  destruct op; simpl; try apply Hgo; try reflexivity.
  - destruct (History.push d to st w) as [w' c] eqn:E. simpl.
    apply push_cases in E as [(e & _ & _ & _ & _ & Hl)|(p & u & win & _ & _ & _ & E)];
      [exact Hl|].
    apply triggerChange_frame in E as (Hl & _). exact Hl.
  - destruct (History.replace d to st w) as [w' c] eqn:E. simpl.
    apply replace_cases in E as [(e & _ & _ & _ & _ & Hl)|(p & u & win & _ & _ & _ & E)];
      [exact Hl|].
    apply triggerChange_frame in E as (Hl & _). exact Hl.
  - unfold History.window_pushState. destruct (pushState st url (window w)). reflexivity.
  - unfold History.window_replaceState. destruct (replaceState st url (window w)).
    reflexivity.
Qed.

Lemma run_all_NoDup (ops : list Op) (w : World W) :
  NoDup (listeners w) -> NoDup (listeners (run_all d ops w)).
Proof.
  revert w. induction ops as [|op ops IH]; intros w Hnd; [exact Hnd|].
  simpl. apply IH. rewrite run_listeners.
  destruct op; try exact Hnd.
  - apply set_add_NoDup, Hnd.
  - apply NoDup_filter, Hnd.
  - constructor.
Qed.

Lemma calls_of_one_change (l : Listener) (ch : Change.t) (s : list Listener) :
  NoDup s -> In l s ->
  map snd (filter (fun y : Listener * Change.t => Nat.eqb (fst y) l)
             (map (fun x => (x, ch)) s)) = [ch].
Proof.
  induction s as [|x s IH]; intros Hnd Hin; [destruct Hin|].
  inversion Hnd as [|? ? Hx Hnd']; subst. simpl.
  destruct (Nat.eqb_spec x l) as [->|Hne].
  - simpl. f_equal.
    assert (E : filter (fun y : Listener * Change.t => Nat.eqb (fst y) l)
                  (map (fun x => (x, ch)) s) = []).
    { clear -Hx. induction s as [|y s IH]; [reflexivity|]. simpl.
      destruct (Nat.eqb_spec y l) as [->|_]; [exfalso; apply Hx; left; reflexivity|].
      apply IH. intros Hin. apply Hx. right. exact Hin. }
    rewrite E. reflexivity.
  - apply IH; [exact Hnd'|]. destruct Hin as [Hin|Hin]; [congruence | exact Hin].
Qed.

Lemma received_one_more (l : Listener) (ch : Change.t) (w w' : World W) :
  NoDup (listeners w) -> In l (listeners w) ->
  deliveries w' = deliveries w ++ map (fun x => (x, ch)) (listeners w) ->
  received l w' = received l w ++ [ch].
Proof.
  intros Hnd Hin Hd. unfold received. rewrite Hd, filter_app, map_app. f_equal.
  apply calls_of_one_change; assumption.
Qed.

End Subscriptions.

(** X4.  The subscriptions are a set.  Subscribing a listener that is
    subscribed changes nothing, the listeners stay distinct whatever is
    called, and a [push] or [replace] that completes calls every subscribed
    listener exactly once. *)
Theorem each_listener_is_called_once
  {W : Type} `{WindowSubset W} (d : HistoryDriver W) (w : World W) (l : Listener) :
  NoDup (listeners w) -> In l (listeners w) ->
  History.subscribe l w = w /\
  History.subscribe l (History.subscribe l (History.unsubscribe l w))
  = History.subscribe l (History.unsubscribe l w) /\
  (forall ops, NoDup (listeners (run_all d ops w))) /\
  (forall to st w',
      History.push d to st w = (w', Normal tt) ->
      received l w' = received l w ++ [change_of PUSH w w']) /\
  (forall to st w',
      History.replace d to st w = (w', Normal tt) ->
      received l w' = received l w ++ [change_of REPLACE w w']).
Proof.
  intros Hnd Hin. split; [|split; [|split; [|split]]].
  - unfold History.subscribe, History.set_listeners.
    rewrite set_add_present by exact Hin. destruct w; reflexivity.
  - unfold History.subscribe, History.unsubscribe, History.set_listeners. simpl.
    rewrite (set_add_present l (set_add Nat.eqb l _)) by apply set_add_member.
    reflexivity.
  - intros ops. apply run_all_NoDup, Hnd.
  - intros to st w' E.
    apply push_cases in E as [(e & He & _)|(p & u & win & _ & _ & _ & E)]; [discriminate|].
    apply triggerChange_normal in E as (_ & _ & _ & _ & _ & Hd).
    apply (received_one_more l _ w w' Hnd Hin Hd).
  - intros to st w' E.
    apply replace_cases in E as [(e & He & _)|(p & u & win & _ & _ & _ & E)]; [discriminate|].
    apply triggerChange_normal in E as (_ & _ & _ & _ & _ & Hd).
    apply (received_one_more l _ w w' Hnd Hin Hd).
Qed.

(** X5.  After [unsubscribe(listener)], or after the disposer that
    [subscribe] returned, the listener receives nothing more, whatever is
    called, unless it is subscribed again.  The other subscriptions stay,
    and a second [unsubscribe] changes nothing. *)
Theorem unsubscribed_listener_is_left_alone
  {W : Type} `{WindowSubset W} (d : HistoryDriver W) (w : World W)
  (l : Listener) (ops : list Op) :
  ~ In (OpSubscribe l) ops ->
  received l (run_all d ops (History.unsubscribe l w)) = received l w /\
  received l (run_all d ops (History.disposer l (History.subscribe l w))) = received l w /\
  (forall l', In l' (listeners (History.unsubscribe l w)) <-> In l' (listeners w) /\ l' <> l) /\
  History.unsubscribe l (History.unsubscribe l w) = History.unsubscribe l w.
Proof.
  intros Hops.
  assert (Hout : forall s, ~ In l (set_delete Nat.eqb l s)).
  { intros s Hin. apply set_delete_spec in Hin. tauto. }
  split; [|split; [|split]].
  - rewrite unsubscribed_receives_nothing; [reflexivity | apply Hout | exact Hops].
  - rewrite unsubscribed_receives_nothing; [reflexivity | apply Hout | exact Hops].
  - intros l'. apply set_delete_spec.
  - unfold History.unsubscribe, History.set_listeners. simpl.
    rewrite (set_delete_absent l (set_delete Nat.eqb l _)) by apply Hout. reflexivity.
Qed.

(** X6.  When [prepareState], [prepareUrl], the surface's [pushState] or
    [replaceState], or [getLocation] on the written surface raises, [push]
    and [replace] raise the same exception before any listener is called:
    nothing is delivered and [location] and the subscriptions are as they
    were.  The surface is untouched when [prepareState] or [prepareUrl]
    raised; [from] is untouched unless [getLocation] raised, and then it
    already holds the current location.  (What a raising listener does to a
    navigation is not covered.) *)
Theorem failed_navigation_calls_nobody
  {W : Type} `{WindowSubset W} (d : HistoryDriver W) (w w' : World W)
  (to : string) (st : JSVal) (e : exn) :
  (fails_before_listeners d pushState to st w w' e ->
   History.push d to st w = (w', Throw e)) /\
  (fails_before_listeners d replaceState to st w w' e ->
   History.replace d to st w = (w', Throw e)) /\
  (forall write,
     fails_before_listeners d write to st w w' e ->
     deliveries w' = deliveries w /\ location w' = location w /\
     listeners w' = listeners w /\ next_ref w' = next_ref w /\
     (from w' = from w \/ from w' = Some (location w) /\
                          getLocation d (window w') (next_ref w) = Throw e) /\
     (prepareState d st to (location w) = Throw e \/
      prepareUrl d to (location w) = Throw e -> w' = w)).
Proof.
  split; [|split].
  - intros [(Hp & ->)|[(p & Hp & Hu & ->)|[(p & u & win & Hp & Hu & Hw & ->)
                                           |(p & u & win & Hp & Hu & Hw & Hg & ->)]]];
      unfold History.push; rewrite Hp; try rewrite Hu; try rewrite Hw; try reflexivity.
    exact (triggerChange_when_throw d PUSH (History.set_window win w) e Hg).
  - intros [(Hp & ->)|[(p & Hp & Hu & ->)|[(p & u & win & Hp & Hu & Hw & ->)
                                           |(p & u & win & Hp & Hu & Hw & Hg & ->)]]];
      unfold History.replace; rewrite Hp; try rewrite Hu; try rewrite Hw; try reflexivity.
    exact (triggerChange_when_throw d REPLACE (History.set_window win w) e Hg).
  - intros write [(Hp & ->)|[(p & Hp & Hu & ->)|[(p & u & win & Hp & Hu & Hw & ->)
                                                 |(p & u & win & Hp & Hu & Hw & Hg & ->)]]];
      cbn [deliveries location listeners next_ref from window History.set_window];
      repeat split; auto; intros [E|E]; congruence.
Qed.

(** ** The simulated surface under [pushState], [replaceState] and [go] *)

(** X7.  On the simulated surface [pushState] stores the state on a new
    entry after the cursor and leaves the entries up to the cursor as they
    were, so [go(-1)] right after it shows again the state and the location
    of before, and [go(1)] after that shows the pushed state; each of the
    two calls every registered callback. *)
Theorem surface_push_then_back
  (w w1 : MockedWindow.t) (st : JSVal) (url : option string) (c : completion unit) :
  well_formed w ->
  MockedWindow.pushState st url w = (w1, c) ->
  let back := MockedWindow.go (Some (-1)%Z) w1 in
  let again := MockedWindow.go (Some 1%Z) (fst back) in
  c = Normal tt /\
  MockedWindow.state w1 = st /\
  (forall j, (j <= MockedWindow.index w)%nat ->
     array_get (MockedWindow.history w1) j = array_get (MockedWindow.history w) j) /\
  MockedWindow.index (fst back) = MockedWindow.index w /\
  MockedWindow.state (fst back) = MockedWindow.state w /\
  MockedWindow.location (fst back) = MockedWindow.location w /\
  snd back = MockedWindow.listeners w /\
  MockedWindow.index (fst again) = S (MockedWindow.index w) /\
  MockedWindow.state (fst again) = st /\
  snd again = MockedWindow.listeners w.
Proof.
  intros Hwf E back again.
  destruct (pushState_well_formed _ _ _ _ _ Hwf E) as (Hc & Hwf1 & Hi & Hl & Hlen & h & Hh).
  assert (Hv : (MockedWindow.index w < List.length (MockedWindow.history w))%nat)
    by apply Hwf.
  assert (Hold : forall j, (j <= MockedWindow.index w)%nat ->
            array_get (MockedWindow.history w1) j = array_get (MockedWindow.history w) j).
  { intros j Hj. rewrite Hh.
    change (firstn ?n ?a ++ [Some ?x]) with (array_splice_to_end a n x).
    apply array_get_spliced_old; lia. }
  assert (Hnew : array_get (MockedWindow.history w1) (S (MockedWindow.index w))
                 = Some (h, st)).
  { rewrite Hh.
    change (firstn ?n ?a ++ [Some ?x]) with (array_splice_to_end a n x).
    apply array_get_spliced_new. lia. }
  assert (Hb : back = ({| MockedWindow.index := MockedWindow.index w;
                          MockedWindow.history := MockedWindow.history w1;
                          MockedWindow.listeners := MockedWindow.listeners w1 |},
                       MockedWindow.listeners w1)).
  { subst back. unfold MockedWindow.go. cbn [MockedWindow.index MockedWindow.history].
    rewrite Hlen, Hi.
    replace (clamp (S (S (MockedWindow.index w))) (S (MockedWindow.index w)) (-1))
      with (MockedWindow.index w) by (unfold clamp; lia).
    destruct (Nat.eqb_spec (MockedWindow.index w) (S (MockedWindow.index w)));
      [lia | reflexivity]. }
  assert (Ha : again = ({| MockedWindow.index := S (MockedWindow.index w);
                           MockedWindow.history := MockedWindow.history w1;
                           MockedWindow.listeners := MockedWindow.listeners w1 |},
                        MockedWindow.listeners w1)).
  { subst again. rewrite Hb. unfold MockedWindow.go.
    cbn [fst MockedWindow.index MockedWindow.history MockedWindow.listeners].
    rewrite Hlen.
    replace (clamp (S (S (MockedWindow.index w))) (MockedWindow.index w) 1)
      with (S (MockedWindow.index w)) by (unfold clamp; lia).
    destruct (Nat.eqb_spec (S (MockedWindow.index w)) (MockedWindow.index w));
      [lia | reflexivity]. }
  rewrite Ha, Hb. cbn [fst snd MockedWindow.index].
  unfold MockedWindow.state, MockedWindow.location.
  cbn [MockedWindow.index MockedWindow.history]. rewrite Hi, Hnew, (Hold _ (le_n _)).
  repeat split; auto.
Qed.

Section NavigationAtTheBounds.
Variable d : HistoryDriver MockedWindow.t.

Lemma go_nowhere (delta : Z) (w : World MockedWindow.t) :
  clamp (List.length (MockedWindow.history (window w))) (MockedWindow.index (window w)) delta
  = MockedWindow.index (window w) ->
  History.go d (Some delta) w = (w, Normal tt).
Proof.
  intros E. unfold History.go. cbn [history_go MockedWindow_WindowSubset].
  unfold MockedWindow.go. cbn [MockedWindow.index]. rewrite E, Nat.eqb_refl.
  destruct w as [[i h ls] loc f l dl n]. reflexivity.
Qed.

End NavigationAtTheBounds.

(** X8.  On the simulated surface [back()] and every [go] of a delta that
    is not positive do nothing at all on the first entry, and so do
    [forward()] and every [go] of a delta that is not negative on the last
    one, [go(0)] and [go()] anywhere: no listener is called and the surface,
    [location] and [from] are as before. *)
Theorem navigation_stops_at_the_bounds
  (d : HistoryDriver MockedWindow.t) (w : World MockedWindow.t) :
  valid_cursor (window w) ->
  (MockedWindow.index (window w) = 0%nat ->
   History.back d w = (w, Normal tt) /\
   forall delta, (delta <= 0)%Z -> History.go d (Some delta) w = (w, Normal tt)) /\
  (S (MockedWindow.index (window w)) = List.length (MockedWindow.history (window w)) ->
   History.forward d w = (w, Normal tt) /\
   forall delta, (0 <= delta)%Z -> History.go d (Some delta) w = (w, Normal tt)) /\
  History.go d (Some 0%Z) w = (w, Normal tt) /\
  History.go d None w = (w, Normal tt).
Proof.
  unfold valid_cursor. intros Hv. repeat split.
  - apply go_nowhere. unfold clamp. lia.
  - intros delta Hd. apply go_nowhere. unfold clamp. lia.
  - apply go_nowhere. unfold clamp. lia.
  - intros delta Hd. apply go_nowhere. unfold clamp. lia.
  - apply go_nowhere. unfold clamp. lia.
  - destruct w as [[i h ls] loc f l dl n]. reflexivity.
Qed.

(** X9.  On the simulated surface and with any driver, [replace] keeps the
    number of entries and the cursor, whether it completes or raises, and
    leaves every entry but the one under the cursor as it was. *)
Theorem replace_keeps_the_length
  (d : HistoryDriver MockedWindow.t) (w w' : World MockedWindow.t)
  (to : string) (st : JSVal) (c : completion unit) :
  well_formed (window w) ->
  History.replace d to st w = (w', c) ->
  History.length w' = History.length w /\
  MockedWindow.index (window w') = MockedWindow.index (window w) /\
  well_formed (window w') /\
  (forall j, j <> MockedWindow.index (window w) ->
     array_get (MockedWindow.history (window w')) j
     = array_get (MockedWindow.history (window w)) j).
Proof.
  intros Hwf E0. unfold History.length.
  cbn [history_length MockedWindow_WindowSubset].
  destruct (replace_window d _ _ _ _ _ E0) as [Ew|(p & u & c' & E)].
  { rewrite Ew. auto. }
  destruct (replaceState_well_formed _ _ _ _ _ Hwf E) as (_ & Hwf' & Hi & _ & Hlen).
  repeat split; try assumption; try apply Hwf'.
  intros j Hj.
  change (replaceState p u (window w)) with (MockedWindow.replaceState p u (window w)) in E.
  unfold MockedWindow.replaceState in E.
  destruct (or_else u (MockedWindow.last_location (window w))) as [h|e];
    inversion E; subst; [|reflexivity].
  cbn [MockedWindow.history]. apply array_get_set_other. congruence.
Qed.

(** ** The memory engine alone on its simulated surface *)

Section MemoryEngineAlone.

Lemma memory_reads (win win' : MockedWindow.t) (r r' : nat) (l : Location) :
  MockedWindow.state win' = MockedWindow.state win ->
  getLocation memoryDriver win r = Normal l ->
  getLocation memoryDriver win' r' = Normal (with_ref r' l).
Proof.
  intros Hs Hg. change (history_state win' = history_state win) in Hs.
  rewrite (memory_getLocation_state win win' r' Hs).
  apply (memory_getLocation_ref _ _ _ _ Hg).
Qed.

Lemma readable_entry (w' win : MockedWindow.t) (i r : nat) (l : Location) :
  state_at (MockedWindow.history w') i = MockedWindow.state win ->
  getLocation memoryDriver win r = Normal l ->
  exists l', getLocation memoryDriver (at_entry i w') 0 = Normal l'.
Proof.
  intros Hs Hg. exists (with_ref 0 l). apply (memory_reads win _ r 0 l); [|exact Hg].
  rewrite <- Hs. reflexivity.
Qed.

Lemma replaceState_entry (st : JSVal) (url : option string) (w w' : MockedWindow.t)
  (c : completion unit) :
  well_formed w -> MockedWindow.replaceState st url w = (w', c) ->
  exists l, MockedWindow.history w'
            = array_set (MockedWindow.history w) (MockedWindow.index w) (l, st).
Proof.
  intros Hwf. unfold MockedWindow.replaceState.
  destruct (or_else_normal url (MockedWindow.last_location w)) as [l ->].
  { apply (last_location_well_formed w Hwf). }
  intros E. inversion E; subst. exists l. reflexivity.
Qed.

Lemma memory_allocates (win : MockedWindow.t) (r : nat) (l : Location) :
  getLocation memoryDriver win r = Normal l -> ref l = r.
Proof. apply drivers_allocate. right. right. reflexivity. Qed.

Lemma set_window_same {W : Type} (w : World W) : History.set_window (window w) w = w.
Proof. destruct w; reflexivity. Qed.

Lemma created_self_driven (initial : string) (w : World MockedWindow.t) :
  createMemoryHistory_mocked initial = Normal w -> self_driven w.
Proof.
  unfold createMemoryHistory_mocked, createMemoryHistory.
  destruct (memory_prepareState JNull initial None) as [prepared|e]; simpl; [|discriminate].
  intros E. apply createHistory_window in E as (Hw & Hg & _).
  assert (Hr : getLocation memoryDriver (window w) (ref (location w)) = Normal (location w)).
  { rewrite (memory_allocates _ _ _ Hg), Hw. exact Hg. }
  split; [split; [|split; [|split]]|].
  - rewrite Hw. split; [unfold valid_cursor; simpl; lia|].
    simpl. constructor; [discriminate | constructor].
  - rewrite Hw. simpl. repeat constructor. simpl. tauto.
  - rewrite Hw. simpl. auto.
  - exact Hr.
  - intros i Hi. rewrite Hw in Hi. simpl in Hi.
    apply (readable_entry (window w) (window w) i (ref (location w)) (location w));
      [|exact Hr].
    rewrite Hw. destruct i; [reflexivity | lia].
Qed.

Lemma pushed_self_driven (to : string) (st : JSVal) (w w' : World MockedWindow.t) :
  self_driven w -> History.push memoryDriver to st w = (w', Normal tt) -> self_driven w'.
Proof.
  intros ((Hwf & Hnd & Hin & Hsync) & Hr) E.
  apply push_cases in E as [(e & He & _)|(p & u & win & _ & _ & Ep & E)]; [discriminate|].
  apply triggerChange_normal in E as (Hg & Hw & _). simpl in Hg, Hw.
  destruct (pushState_well_formed _ _ _ _ _ Hwf Ep) as (_ & Hwf1 & Hi1 & Hl1 & Hlen1 & h & Hh1).
  assert (Hv : (MockedWindow.index (window w) < List.length (MockedWindow.history (window w)))%nat)
    by apply Hwf.
  unfold self_driven, in_step. rewrite Hw. split; [split; [exact Hwf1 | split; [|split]]|].
  - rewrite Hl1. exact Hnd.
  - rewrite Hl1. exact Hin.
  - rewrite (memory_allocates _ _ _ Hg). exact Hg.
  - intros i Hi. rewrite Hlen1 in Hi.
    destruct (Nat.eq_dec i (S (MockedWindow.index (window w)))) as [->|Hne].
    + apply (readable_entry win win _ (next_ref w) (location w')); [|exact Hg].
      unfold state_at, MockedWindow.state. rewrite Hi1. reflexivity.
    + destruct (Hr i ltac:(lia)) as [l Hl].
      apply (readable_entry win (at_entry i (window w)) _ 0 l); [|exact Hl].
      unfold state_at, MockedWindow.state. cbn [at_entry MockedWindow.index MockedWindow.history].
      rewrite Hh1.
      change (firstn ?n ?a ++ [Some ?x]) with (array_splice_to_end a n x).
      rewrite array_get_spliced_old by lia. reflexivity.
Qed.

Lemma replaced_self_driven (to : string) (st : JSVal) (w w' : World MockedWindow.t) :
  self_driven w -> History.replace memoryDriver to st w = (w', Normal tt) -> self_driven w'.
Proof.
  intros ((Hwf & Hnd & Hin & Hsync) & Hr) E.
  apply replace_cases in E as [(e & He & _)|(p & u & win & _ & _ & Ep & E)]; [discriminate|].
  apply triggerChange_normal in E as (Hg & Hw & _). simpl in Hg, Hw.
  destruct (replaceState_well_formed _ _ _ _ _ Hwf Ep) as (_ & Hwf1 & Hi1 & Hl1 & Hlen1).
  destruct (replaceState_entry _ _ _ _ _ Hwf Ep) as [h Hh1].
  unfold self_driven, in_step. rewrite Hw. split; [split; [exact Hwf1 | split; [|split]]|].
  - rewrite Hl1. exact Hnd.
  - rewrite Hl1. exact Hin.
  - rewrite (memory_allocates _ _ _ Hg). exact Hg.
  - intros i Hi. rewrite Hlen1 in Hi.
    destruct (Nat.eq_dec i (MockedWindow.index (window w))) as [->|Hne].
    + apply (readable_entry win win _ (next_ref w) (location w')); [|exact Hg].
      unfold state_at, MockedWindow.state. rewrite Hi1. reflexivity.
    + destruct (Hr i Hi) as [l Hl].
      apply (readable_entry win (at_entry i (window w)) _ 0 l); [|exact Hl].
      unfold state_at, MockedWindow.state. cbn [at_entry MockedWindow.index MockedWindow.history].
      rewrite Hh1. rewrite array_get_set_other by congruence. reflexivity.
Qed.

(** [go] on a memory engine that can read every entry: it completes, and
    when the cursor moves [handlePop] runs once. *)
Lemma memory_go (delta : option Z) (w : World MockedWindow.t) :
  self_driven w ->
  exists w',
    History.go memoryDriver delta w = (w', Normal tt) /\ self_driven w' /\
    window w' = fst (MockedWindow.go delta (window w)) /\
    listeners w' = listeners w /\
    (MockedWindow.index (window w') = MockedWindow.index (window w) ->
     deliveries w' = deliveries w /\ location w' = location w /\ from w' = from w) /\
    (MockedWindow.index (window w') <> MockedWindow.index (window w) ->
     deliveries w' = deliveries w ++ map (fun l => (l, change_of POP w w')) (listeners w) /\
     from w' = Some (location w) /\ ref (location w') = next_ref w).
Proof.
  intros Hsd. pose proof Hsd as ((Hwf & Hnd & Hin & Hsync) & Hr).
  assert (Hstay : History.dispatch memoryDriver [] w = (w, Normal tt) /\ self_driven w /\
            window w = window w /\ listeners w = listeners w /\
            (MockedWindow.index (window w) = MockedWindow.index (window w) ->
             deliveries w = deliveries w /\ location w = location w /\ from w = from w) /\
            (MockedWindow.index (window w) <> MockedWindow.index (window w) ->
             deliveries w = deliveries w ++ map (fun l => (l, change_of POP w w)) (listeners w) /\
             from w = Some (location w) /\ ref (location w) = next_ref w)).
  { split; [reflexivity|]. split; [exact Hsd|]. do 2 (split; [reflexivity|]).
    split; [auto|]. intros Hc. contradiction Hc. reflexivity. }
  assert (Hsame : forall win, MockedWindow.index win = MockedWindow.index (window w) ->
            MockedWindow.history win = MockedWindow.history (window w) ->
            MockedWindow.listeners win = MockedWindow.listeners (window w) ->
            win = window w).
  { intros [i h ls] Hi Hh Hl. simpl in *. subst. destruct (window w); reflexivity. }
  unfold History.go. change (history_go delta (window w)) with (MockedWindow.go delta (window w)).
  destruct delta as [dl|]; simpl.
  2:{ exists w. rewrite set_window_same. exact Hstay. }
  set (i := clamp (List.length (MockedWindow.history (window w)))
                  (MockedWindow.index (window w)) dl).
  assert (Hi : (i < List.length (MockedWindow.history (window w)))%nat).
  { apply clamp_below. destruct Hwf as [Hv _]. unfold valid_cursor in Hv. lia. }
  destruct (Nat.eqb_spec i (MockedWindow.index (window w))) as [Heq|Hne].
  - assert (Ew : at_entry i (window w) = window w)
      by (apply Hsame; [exact Heq | reflexivity | reflexivity]).
    unfold at_entry in Ew. simpl. rewrite Ew, set_window_same.
    exists w. exact Hstay.
  - destruct (Hr i Hi) as [l0 Hl0].
    pose proof (memory_reads (at_entry i (window w)) (at_entry i (window w)) 0 (next_ref w)
                  l0 eq_refl Hl0) as Hg.
    pose proof (triggerChange_when_normal memoryDriver POP
                  (History.set_window (at_entry i (window w)) w) _ Hg) as Epop.
    eexists. split; [|split; [|split; [|split; [|split]]]].
    + apply dispatch_normal; [exact Hnd | exact Hin | exact Epop].
    + split; [split; [|split; [|split]]|]; cbn [window location].
      * split; [exact Hi | apply Hwf].
      * exact Hnd.
      * exact Hin.
      * exact Hg.
      * exact Hr.
    + reflexivity.
    + reflexivity.
    + cbn [window at_entry MockedWindow.index]. intros Heq. contradiction.
    + intros _. repeat split.
Qed.

(** What [push] of the memory driver does to a surface: nothing, or one
    [pushState] that names no href. *)
Lemma memory_push_window (to : string) (st : JSVal) (w w' : World MockedWindow.t)
  (c : completion unit) :
  History.push memoryDriver to st w = (w', c) ->
  window w' = window w \/
  exists p c', MockedWindow.pushState p None (window w) = (window w', c').
Proof.
  unfold History.push.
  destruct (prepareState memoryDriver st to (location w)) as [prepared|e];
    [|intros E; inversion E; subst; left; reflexivity].
  change (prepareUrl memoryDriver to (location w)) with (Normal (@None string)).
  cbv iota beta.
  change (pushState prepared None (window w))
    with (MockedWindow.pushState prepared None (window w)).
  destruct (MockedWindow.pushState prepared None (window w)) as [win [[]|e]] eqn:Ep; intros E.
  - apply triggerChange_frame in E as (_ & Hw & _). simpl in Hw.
    right. exists prepared, (Normal tt). rewrite Hw. exact Ep.
  - inversion E; subst. right. exists prepared, (Throw e). exact Ep.
Qed.

Lemma memory_replace_window (to : string) (st : JSVal) (w w' : World MockedWindow.t)
  (c : completion unit) :
  History.replace memoryDriver to st w = (w', c) ->
  window w' = window w \/
  exists p c', MockedWindow.replaceState p None (window w) = (window w', c').
Proof.
  unfold History.replace.
  destruct (prepareState memoryDriver st to (location w)) as [prepared|e];
    [|intros E; inversion E; subst; left; reflexivity].
  change (prepareUrl memoryDriver to (location w)) with (Normal (@None string)).
  cbv iota beta.
  change (replaceState prepared None (window w))
    with (MockedWindow.replaceState prepared None (window w)).
  destruct (MockedWindow.replaceState prepared None (window w)) as [win [[]|e]] eqn:Ep; intros E.
  - apply triggerChange_frame in E as (_ & Hw & _). simpl in Hw.
    right. exists prepared, (Normal tt). rewrite Hw. exact Ep.
  - inversion E; subst. right. exists prepared, (Throw e). exact Ep.
Qed.

Lemma array_get_in {A : Type} (a : list (option A)) (i : nat) (x : A) :
  array_get a i = Some x -> In (Some x) a.
Proof.
  unfold array_get. destruct (nth_error a i) as [[y|]|] eqn:E; try discriminate.
  intros Hx. inversion Hx; subst. apply (nth_error_In _ _ E).
Qed.

Lemma uniform_last (h : string) (w : MockedWindow.t) (l : string) :
  uniform_href h w -> MockedWindow.last_location w = Normal l -> l = h.
Proof.
  unfold uniform_href, MockedWindow.last_location, array_last. intros F.
  destruct (array_get _ _) as [[x st]|] eqn:E; [|discriminate].
  intros Hl. inversion Hl; subst. apply array_get_in in E.
  rewrite Forall_forall in F. destruct (F _ E) as [st' Hx]. congruence.
Qed.

Lemma array_set_Forall {A : Type} (P : option A -> Prop) (a : list (option A))
  (i : nat) (x : A) :
  (i < List.length a)%nat -> P (Some x) -> Forall P a -> Forall P (array_set a i x).
Proof.
  revert i. induction a as [|y a IH]; intros [|i] Hi Hx F; simpl in *; try lia;
    inversion F; subst; constructor; auto. apply IH; [lia | assumption | assumption].
Qed.

Lemma pushState_uniform (h : string) (p : JSVal) (w w' : MockedWindow.t)
  (c : completion unit) :
  uniform_href h w -> MockedWindow.pushState p None w = (w', c) -> uniform_href h w'.
Proof.
  intros F. unfold MockedWindow.pushState, or_else.
  destruct (MockedWindow.last_location _) as [l|e] eqn:El; intros E; inversion E; subst;
    [|exact F].
  apply (uniform_last h) in El; [|exact F]. subst l.
  unfold uniform_href. simpl. unfold array_splice_to_end. apply Forall_app. split.
  - apply Forall_firstn, F.
  - constructor; [eauto | constructor].
Qed.

Lemma replaceState_uniform (h : string) (p : JSVal) (w w' : MockedWindow.t)
  (c : completion unit) :
  valid_cursor w -> uniform_href h w ->
  MockedWindow.replaceState p None w = (w', c) -> uniform_href h w'.
Proof.
  intros Hv F. unfold MockedWindow.replaceState, or_else.
  destruct (MockedWindow.last_location _) as [l|e] eqn:El; intros E; inversion E; subst;
    [|exact F].
  apply (uniform_last h) in El; [|exact F]. subst l.
  unfold uniform_href. simpl. apply array_set_Forall; [exact Hv | eauto | exact F].
Qed.

Lemma run_uniform (h : string) (op : Op) (w : World MockedWindow.t) :
  well_formed (window w) -> uniform_href h (window w) -> engine_call op ->
  uniform_href h (window (fst (run memoryDriver op w))).
Proof.
  intros Hwf F Hop.
  assert (Hgo : forall delta, uniform_href h (window (fst (History.go memoryDriver delta w)))).
  { intros delta. destruct (History.go memoryDriver delta w) as [w' c] eqn:E.
    apply go_window in E. simpl. rewrite E.
    unfold uniform_href.
    change (history_go delta (window w)) with (MockedWindow.go delta (window w)).
    rewrite (proj1 (proj2 (go_well_formed delta (window w) Hwf))). exact F. }
  destruct op; simpl; try apply Hgo; try exact F; try contradiction.
  - destruct (History.push memoryDriver to st w) as [w' c] eqn:E. simpl.
    apply memory_push_window in E as [->|(p & c' & E)]; [exact F|].
    apply (pushState_uniform h _ _ _ _ F E).
  - destruct (History.replace memoryDriver to st w) as [w' c] eqn:E. simpl.
    apply memory_replace_window in E as [->|(p & c' & E)]; [exact F|].
    apply (replaceState_uniform h _ _ _ _ (proj1 Hwf) F E).
Qed.

Lemma run_self_driven (op : Op) (w w' : World MockedWindow.t) :
  self_driven w -> keeps_engine op ->
  run memoryDriver op w = (w', Normal tt) -> self_driven w'.
Proof.
  intros Hsd Hop.
  assert (Hgo : forall delta, History.go memoryDriver delta w = (w', Normal tt) ->
                              self_driven w').
  { intros delta E. destruct (memory_go delta w Hsd) as (w1 & E1 & Hsd1 & _).
    rewrite E1 in E. inversion E; subst. exact Hsd1. }
  destruct op; simpl in *; try contradiction; intros E; try apply (Hgo _ E).
  - apply (pushed_self_driven _ _ _ _ Hsd E).
  - apply (replaced_self_driven _ _ _ _ Hsd E).
  - inversion E; subst. exact Hsd.
  - inversion E; subst. exact Hsd.
Qed.

End MemoryEngineAlone.

(** X10.  The memory engine keeps its locations in the states and never
    names an href: on a simulated surface where every entry shows the href
    [h], whatever is called on the engine, with integer deltas for [go],
    every entry still shows [h] and so does [window.location.href]. *)
Theorem memory_engine_keeps_the_href
  (h : string) (w : World MockedWindow.t) (ops : list Op) :
  well_formed (window w) -> uniform_href h (window w) -> Forall engine_call ops ->
  uniform_href h (window (run_all memoryDriver ops w)) /\
  location_href (window (run_all memoryDriver ops w)) = Normal h.
Proof.
  intros Hwf F Hops.
  assert (Hinv : well_formed (window (run_all memoryDriver ops w)) /\
                 uniform_href h (window (run_all memoryDriver ops w))).
  { revert w Hwf F. induction Hops as [|op r Hop Hr IH]; simpl; intros w Hwf F; [auto|].
    apply IH; [apply run_well_formed, Hwf | apply run_uniform; assumption]. }
  destruct Hinv as ([Hv Hfilled] & Hu). split; [exact Hu|].
  set (win := window (run_all memoryDriver ops w)) in *.
  unfold valid_cursor in Hv. unfold uniform_href in Hu.
  simpl. unfold MockedWindow.location, array_get.
  destruct (nth_error (MockedWindow.history win) (MockedWindow.index win)) as [e|] eqn:E.
  - rewrite Forall_forall in Hu. destruct (Hu _ (nth_error_In _ _ E)) as [st ->]. reflexivity.
  - apply nth_error_None in E. lia.
Qed.

(** X11.  The memory engine made without a window can read every entry of
    its surface and is in step with it, and every call of the engine that
    completes keeps it so, as long as nobody else writes on the surface and
    the engine is not destroyed. *)
Theorem memory_engine_stays_in_step (w w' : World MockedWindow.t) (op : Op) :
  self_driven w -> keeps_engine op ->
  run memoryDriver op w = (w', Normal tt) ->
  self_driven w' /\
  getLocation memoryDriver (window w') (ref (location w')) = Normal (location w') /\
  (forall initial w0, createMemoryHistory_mocked initial = Normal w0 -> self_driven w0).
Proof.
  intros Hsd Hop E. pose proof (run_self_driven op w w' Hsd Hop E) as Hsd'.
  split; [exact Hsd'|]. split; [apply Hsd' | exact created_self_driven].
Qed.

(** X12.  On a memory engine in step with a simulated surface whose
    entries it can all read, [go] of an integer delta, [back] and [forward]
    never raise.  When the cursor does not move nothing is delivered and
    the location stays; when it moves every subscribed listener is called
    exactly once with action POP, the location read from the entry under
    the cursor and the previous location as [from]. *)
Theorem memory_navigation_completes (w : World MockedWindow.t) (delta : option Z) :
  self_driven w ->
  exists w',
    History.go memoryDriver delta w = (w', Normal tt) /\
    window w' = fst (MockedWindow.go delta (window w)) /\
    getLocation memoryDriver (window w') (ref (location w')) = Normal (location w') /\
    listeners w' = listeners w /\
    (MockedWindow.index (window w') = MockedWindow.index (window w) ->
     deliveries w' = deliveries w /\ location w' = location w /\ from w' = from w) /\
    (MockedWindow.index (window w') <> MockedWindow.index (window w) ->
     deliveries w' = deliveries w ++ map (fun l => (l, change_of POP w w')) (listeners w) /\
     from w' = Some (location w)).
Proof.
  intros Hsd. destruct (memory_go delta w Hsd) as (w' & E & Hsd' & Hw & Hl & Hs & Hm).
  exists w'. repeat split; try assumption; try apply Hsd'; try apply (Hs ltac:(assumption));
    try apply (Hm ltac:(assumption)).
Qed.

(** ** The state a caller passes *)

Section StateReadBack.

(** What each driver makes of the state the surface shows, when that state
    is the one its [prepareState] built. *)
Lemma driver_reads_its_state {W : Type} `{WindowSubset W} (d : HistoryDriver W)
  (win : W) (r : nat) (l current : Location) (to : string) (st : JSVal) :
  a_driver d ->
  prepareState d st to current = Normal (history_state win) ->
  getLocation d win r = Normal l ->
  state l = st.
Proof.
  intros [->|[[hashSubstitute ->]| ->]]; simpl.
  - intros Hp. inversion Hp as [Hst].
    destruct (location_href win); [|discriminate]. simpl.
    intros E. apply createLocation_href in E as (_ & _ & ->). reflexivity.
  - intros Hp. inversion Hp as [Hst].
    destruct (location_hash win) as [h|]; [|discriminate]. simpl.
    destruct (URI.decodeURIComponent (slice1 h)); [|discriminate]. simpl.
    intros E. apply createLocation_href in E as (_ & _ & ->). reflexivity.
  - unfold memory_prepareState.
    destruct (URL.new to _) as [u|e]; simpl; [|discriminate].
    intros Hp. injection Hp as Hst. rewrite <- Hst. simpl.
    intros E. apply createLocation_href in E as (_ & _ & ->). reflexivity.
Qed.

Lemma pushState_state (st : JSVal) (url : option string) (w w' : MockedWindow.t)
  (c : completion unit) :
  well_formed w -> MockedWindow.pushState st url w = (w', c) -> MockedWindow.state w' = st.
Proof.
  intros Hwf E.
  destruct (pushState_well_formed _ _ _ _ _ Hwf E) as (_ & _ & Hi & _ & _ & h & Hh).
  assert (Hv : (MockedWindow.index w < List.length (MockedWindow.history w))%nat)
    by apply Hwf.
  unfold MockedWindow.state. rewrite Hh, Hi.
  change (firstn ?n ?a ++ [Some ?x]) with (array_splice_to_end a n x).
  rewrite array_get_spliced_new by lia. reflexivity.
Qed.

Lemma replaceState_state (st : JSVal) (url : option string) (w w' : MockedWindow.t)
  (c : completion unit) :
  well_formed w -> MockedWindow.replaceState st url w = (w', c) -> MockedWindow.state w' = st.
Proof.
  intros Hwf E.
  destruct (replaceState_well_formed _ _ _ _ _ Hwf E) as (_ & _ & Hi & _ & _).
  destruct (replaceState_entry _ _ _ _ _ Hwf E) as [h Hh].
  unfold MockedWindow.state. rewrite Hh, Hi, array_get_set_same. reflexivity.
Qed.

End StateReadBack.

(** X13.  With each of the three drivers on the simulated surface, a [push]
    or [replace] that completes leaves the engine with the state the caller
    passed: [history.state] after [push(to, st)] is [st], also for the
    memory driver, which wraps the state on the surface. *)
Theorem state_is_read_back
  (d : HistoryDriver MockedWindow.t) (w w' : World MockedWindow.t)
  (to : string) (st : JSVal) :
  a_driver d -> well_formed (window w) ->
  History.push d to st w = (w', Normal tt) \/ History.replace d to st w = (w', Normal tt) ->
  state (location w') = st /\
  (d = memoryDriver ->
   get (history_state (window w')) "state" = st /\
   truthy (get (history_state (window w')) IS_MEMORY_HISTORY_STATE) = true).
Proof.
  intros Hd Hwf HE.
  assert (Hs : exists p, prepareState d st to (location w) = Normal p /\
                         MockedWindow.state (window w') = p /\
                         getLocation d (window w') (next_ref w) = Normal (location w')).
  { destruct HE as [E|E].
    - apply push_cases in E as [(e & He & _)|(p & u & win & Hp & _ & Ep & E)]; [discriminate|].
      apply triggerChange_normal in E as (Hg & Hw & _). simpl in Hg, Hw.
      exists p. rewrite Hw. repeat split; try assumption.
      apply (pushState_state _ _ _ _ _ Hwf Ep).
    - apply replace_cases in E as [(e & He & _)|(p & u & win & Hp & _ & Ep & E)]; [discriminate|].
      apply triggerChange_normal in E as (Hg & Hw & _). simpl in Hg, Hw.
      exists p. rewrite Hw. repeat split; try assumption.
      apply (replaceState_state _ _ _ _ _ Hwf Ep). }
  destruct Hs as (p & Hp & Hst & Hg). split.
  - apply (driver_reads_its_state d (window w') (next_ref w) _ (location w) to st Hd);
      [|exact Hg].
    rewrite Hp. f_equal. symmetry. exact Hst.
  - intros ->. change (history_state (window w')) with (MockedWindow.state (window w')).
    rewrite Hst. revert Hp. simpl. unfold memory_prepareState.
    destruct (URL.new to _) as [u|e]; simpl; [|discriminate].
    intros Hp. inversion Hp; subst. split; reflexivity.
Qed.

(** X14.  A [push] is not undone when it raises after the surface took the
    entry.  When the href the memory driver stores for the target begins
    with a slash and holds a colon, [push] raises the [TypeError] of
    [createLocation]: the surface has the new entry and the cursor on it,
    no listener is called, and the engine still holds the location of
    before, which the surface no longer shows. *)
Theorem memory_push_fails_after_the_entry_is_stored
  (w : World MockedWindow.t) (to : string) (st : JSVal) (h : string) :
  well_formed (window w) ->
  memory_prepareState st to (Some (href (location w))) = Normal (envelope st h) ->
  Str.starts_with "/" h = true -> Str.includes h ":" = true ->
  exists w',
    History.push memoryDriver to st w = (w', Throw (TypeError "Invalid URL")) /\
    History.length w' = S (S (MockedWindow.index (window w))) /\
    MockedWindow.index (window w') = S (MockedWindow.index (window w)) /\
    history_state (window w') = envelope st h /\
    location w' = location w /\ from w' = Some (location w) /\
    deliveries w' = deliveries w /\
    (forall r, getLocation memoryDriver (window w') r = Throw (TypeError "Invalid URL")).
Proof.
  intros Hwf Hp Hs Hc.
  unfold History.push.
  change (prepareState memoryDriver st to (location w))
    with (memory_prepareState st to (Some (href (location w)))).
  rewrite Hp.
  change (prepareUrl memoryDriver to (location w)) with (Normal (@None string)).
  cbv iota beta.
  change (pushState (envelope st h) None (window w))
    with (MockedWindow.pushState (envelope st h) None (window w)).
  destruct (MockedWindow.pushState (envelope st h) None (window w)) as [win c] eqn:Ep.
  destruct (pushState_well_formed _ _ _ _ _ Hwf Ep) as (-> & _ & Hi & _ & Hlen & _).
  pose proof (pushState_state _ _ _ _ _ Hwf Ep) as Hst.
  assert (Hg : forall r, getLocation memoryDriver win r = Throw (TypeError "Invalid URL")).
  { intros r. simpl. rewrite Hst. simpl. unfold createLocation. rewrite Hc.
    destruct (starts_with_slash_inv h Hs) as [t ->].
    rewrite new_URL_slash_fails. reflexivity. }
  rewrite (triggerChange_when_throw memoryDriver PUSH (History.set_window win w) _ (Hg _)).
  eexists. split; [reflexivity|].
  cbn [window location from deliveries History.set_window History.length].
  repeat split; auto.
Qed.

(** ** The further properties on the memory engine made without a window *)

Lemma each_listener_is_called_once_witness :
  exists w w',
    createMemoryHistory_mocked "/" = Normal w /\
    History.push memoryDriver "/foo" JUndefined
      (History.subscribe 1 (History.subscribe 2 w)) = (w', Normal tt) /\
    received 1 w'
    = received 1 (History.subscribe 1 (History.subscribe 2 w))
      ++ [change_of PUSH (History.subscribe 1 (History.subscribe 2 w)) w'].
Proof.
  do 2 eexists.
  split; [vm_compute; reflexivity|].
  split; [vm_compute; reflexivity|].
  match goal with
  | |- received ?l ?w' = received ?l ?w ++ _ =>
      refine (proj1 (proj2 (proj2 (proj2
                (each_listener_is_called_once memoryDriver w l _ _))))
                "/foo"%string JUndefined w' _)
  end.
  - vm_compute. repeat constructor; simpl; intuition discriminate.
  - vm_compute. auto.
  - vm_compute. reflexivity.
Defined.

Lemma unsubscribed_listener_is_left_alone_witness :
  exists w,
    createMemoryHistory_mocked "/" = Normal w /\
    received 1
      (run_all memoryDriver [OpPush "/a" JUndefined; OpBack; OpSubscribe 2]
         (History.unsubscribe 1 (History.subscribe 1 w)))
    = received 1 (History.subscribe 1 w).
Proof.
  eexists. split; [vm_compute; reflexivity|].
  match goal with
  | |- received ?l (run_all ?d ?ops (History.unsubscribe ?l ?w)) = _ =>
      refine (proj1 (unsubscribed_listener_is_left_alone d w l ops _))
  end.
  intros [E|[E|[E|[]]]]; discriminate E.
Defined.

Lemma failed_navigation_calls_nobody_witness :
  exists w w',
    createMemoryHistory_mocked "/" = Normal w /\
    fails_before_listeners memoryDriver pushState "/a:b" JUndefined
      (History.subscribe 1 w) w' (TypeError "Invalid URL") /\
    History.push memoryDriver "/a:b" JUndefined (History.subscribe 1 w)
    = (w', Throw (TypeError "Invalid URL")) /\
    deliveries w' = deliveries (History.subscribe 1 w).
Proof.
  do 2 eexists.
  split; [vm_compute; reflexivity|].
  match goal with
  | |- fails_before_listeners ?d ?write ?to ?st ?w ?w' ?e /\ _ =>
      assert (F : fails_before_listeners d write to st w w' e)
  end.
  { right. right. right. do 3 eexists.
    split; [vm_compute; reflexivity|].
    split; [vm_compute; reflexivity|].
    split; [vm_compute; reflexivity|].
    split; [vm_compute; reflexivity|]. reflexivity. }
  split; [exact F|].
  split.
  - exact (proj1 (failed_navigation_calls_nobody _ _ _ _ _ _) F).
  - exact (proj1 (proj2 (proj2 (failed_navigation_calls_nobody _ _ _ _ _ _)) _ F)).
Defined.

Lemma surface_push_then_back_witness :
  well_formed (MockedWindow.createMockedWindow "/") /\
  MockedWindow.location
    (fst (MockedWindow.go (Some (-1)%Z)
            (fst (MockedWindow.pushState (JNum 1) (Some "/a"%string)
                    (MockedWindow.createMockedWindow "/")))))
  = MockedWindow.location (MockedWindow.createMockedWindow "/").
Proof.
  split; [apply createMockedWindow_well_formed|].
  pose proof (surface_push_then_back (MockedWindow.createMockedWindow "/")
                (fst (MockedWindow.pushState (JNum 1) (Some "/a"%string)
                        (MockedWindow.createMockedWindow "/")))
                (JNum 1) (Some "/a"%string) (Normal tt)
                (createMockedWindow_well_formed "/") eq_refl) as H.
  cbv zeta in H. exact (proj1 (proj2 (proj2 (proj2 (proj2 (proj2 H)))))).
Defined.

Lemma navigation_stops_at_the_bounds_witness :
  exists w,
    createMemoryHistory_mocked "/" = Normal w /\
    History.back memoryDriver w = (w, Normal tt) /\
    History.forward memoryDriver w = (w, Normal tt).
Proof.
  eexists. split; [vm_compute; reflexivity|].
  match goal with
  | |- History.back ?d ?w = _ /\ _ =>
      assert (Hv : valid_cursor (window w)) by (vm_compute; lia);
      pose proof (navigation_stops_at_the_bounds d w Hv) as H
  end.
  split; [exact (proj1 (proj1 H eq_refl)) | exact (proj1 (proj1 (proj2 H) eq_refl))].
Defined.

Lemma replace_keeps_the_length_witness :
  exists w w',
    createMemoryHistory_mocked "/" = Normal w /\
    History.replace memoryDriver "/x" JNull w = (w', Normal tt) /\
    History.length w' = History.length w.
Proof.
  do 2 eexists.
  split; [vm_compute; reflexivity|].
  split; [vm_compute; reflexivity|].
  match goal with
  | |- History.length ?w' = History.length ?w =>
      refine (proj1 (replace_keeps_the_length memoryDriver w w' "/x" JNull (Normal tt) _ _))
  end.
  - split; [vm_compute; lia | repeat constructor; discriminate].
  - vm_compute. reflexivity.
Defined.

Lemma memory_engine_keeps_the_href_witness :
  exists w,
    createMemoryHistory_mocked "/foo" = Normal w /\
    location_href
      (window (run_all memoryDriver
                 [OpPush "/a" JNull; OpReplace "/b?c" JNull; OpBack; OpDestroy] w))
    = Normal "/"%string.
Proof.
  eexists. split; [vm_compute; reflexivity|].
  match goal with
  | |- location_href (window (run_all ?d ?ops ?w)) = Normal ?h =>
      refine (proj2 (memory_engine_keeps_the_href h w ops _ _ _))
  end.
  - split; [vm_compute; lia | repeat constructor; discriminate].
  - constructor; [eexists; reflexivity | constructor].
  - repeat (constructor; [exact I|]). constructor.
Defined.

Lemma memory_engine_stays_in_step_witness :
  exists w w',
    createMemoryHistory_mocked "/" = Normal w /\
    run memoryDriver (OpPush "/a" JNull) w = (w', Normal tt) /\
    self_driven w'.
Proof.
  do 2 eexists.
  split; [vm_compute; reflexivity|].
  split; [vm_compute; reflexivity|].
  match goal with
  | |- self_driven ?w' =>
      refine (proj1 (memory_engine_stays_in_step _ w' (OpPush "/a" JNull)
                       (created_self_driven "/" _ eq_refl) I _))
  end.
  vm_compute. reflexivity.
Defined.

Lemma memory_navigation_completes_witness :
  exists w w1,
    createMemoryHistory_mocked "/" = Normal w /\
    History.push memoryDriver "/a" JNull w = (w1, Normal tt) /\
    exists w2, History.go memoryDriver (Some (-1)%Z) w1 = (w2, Normal tt).
Proof.
  do 2 eexists.
  split; [vm_compute; reflexivity|].
  split; [vm_compute; reflexivity|].
  match goal with
  | |- exists w2, History.go _ ?delta ?w1 = _ =>
      assert (Hsd : self_driven w1)
        by (refine (pushed_self_driven "/a" JNull _ w1
                      (created_self_driven "/" _ eq_refl) _); vm_compute; reflexivity);
      destruct (memory_navigation_completes w1 delta Hsd) as (w2 & E & _)
  end.
  exists w2. exact E.
Defined.

Lemma state_is_read_back_witness :
  exists w,
    createMemoryHistory_mocked "/" = Normal w /\
    snd (History.push memoryDriver "/a" (JNum 5) w) = Normal tt /\
    state (location (fst (History.push memoryDriver "/a" (JNum 5) w))) = JNum 5.
Proof.
  eexists.
  split; [vm_compute; reflexivity|].
  split; [vm_compute; reflexivity|].
  match goal with
  | |- state (location (fst (History.push ?d ?to ?st ?w))) = _ =>
      refine (proj1 (state_is_read_back d w (fst (History.push d to st w)) to st
                       (or_intror (or_intror eq_refl)) _ (or_introl _)))
  end.
  - split; [vm_compute; lia | repeat constructor; discriminate].
  - vm_compute. reflexivity.
Defined.

Lemma memory_push_fails_after_the_entry_is_stored_witness :
  exists w,
    createMemoryHistory_mocked "/" = Normal w /\
    exists w',
      History.push memoryDriver "/a:b" JNull w = (w', Throw (TypeError "Invalid URL")) /\
      History.length w' = 2%nat.
Proof.
  eexists. split; [vm_compute; reflexivity|].
  match goal with
  | |- exists w', History.push _ ?to ?st ?w = _ /\ _ =>
      assert (Hwf : well_formed (window w))
        by (split; [vm_compute; lia | repeat constructor; discriminate]);
      destruct (memory_push_fails_after_the_entry_is_stored w to st "/a:b" Hwf
                  eq_refl eq_refl eq_refl) as (w' & E & Hl & _)
  end.
  exists w'. split; [exact E | exact Hl].
Defined.

(** * The length of the history *)

Section PlainTargets.











End PlainTargets.


